(** * Cable path tracing (dcim/models/cables.py)

    A shallow embedding of [CablePath] and of the functions that build,
    retrace and query it, followed by the properties established about
    them.  The database is a record of tables; a table is the list of its
    rows in the model's default ordering, a queryset filter is a list
    filter, and a raised Python exception is an explicit [Raise]. *)

From Stdlib Require Import Ascii.
From stdpp Require Import base numbers list option gmap strings.

Local Open Scope Z_scope.

(** ** Exceptions and results *)

Inductive Exception :=
| AssertionError
| IndexError
| AttributeError
| DoesNotExist
| ValueError
| TypeError
| FieldDoesNotExist.

Inductive Result (A : Type) :=
| Ok (a : A)
| Raise (e : Exception).
Arguments Ok {A} a.
Arguments Raise {A} e.

Definition bind {A B} (r : Result A) (k : A -> Result B) : Result B :=
  match r with
  | Ok a => k a
  | Raise e => Raise e
  end.

Notation "'do' x <- r ; k" := (bind r (fun x => k))
  (at level 10, x name, r at level 100, k at level 200, only parsing).

Fixpoint traverse {A B} (f : A -> Result B) (l : list A) : Result (list B) :=
  match l with
  | [] => Ok []
  | a :: l' => do b <- f a; do bs <- traverse f l'; Ok (b :: bs)
  end.

(** ** Content types and path nodes *)

Inductive Model :=
| InterfaceModel
| ConsolePortModel
| ConsoleServerPortModel
| PowerPortModel
| PowerOutletModel
| PowerFeedModel
| FrontPortModel
| RearPortModel
| CircuitTerminationModel
| CableModel
| WirelessLinkModel
| ProviderNetworkModel
| SiteModel.

#[global] Instance Model_eq_dec : EqDecision Model.
Proof. solve_decision. Defined.

Definition Model_to_nat (m : Model) : nat :=
  match m with
  | InterfaceModel => 0 | ConsolePortModel => 1 | ConsoleServerPortModel => 2
  | PowerPortModel => 3 | PowerOutletModel => 4 | PowerFeedModel => 5
  | FrontPortModel => 6 | RearPortModel => 7 | CircuitTerminationModel => 8
  | CableModel => 9 | WirelessLinkModel => 10 | ProviderNetworkModel => 11
  | SiteModel => 12
  end%nat.

Definition Model_of_nat (n : nat) : option Model :=
  match n with
  | 0 => Some InterfaceModel | 1 => Some ConsolePortModel
  | 2 => Some ConsoleServerPortModel | 3 => Some PowerPortModel
  | 4 => Some PowerOutletModel | 5 => Some PowerFeedModel
  | 6 => Some FrontPortModel | 7 => Some RearPortModel
  | 8 => Some CircuitTerminationModel | 9 => Some CableModel
  | 10 => Some WirelessLinkModel | 11 => Some ProviderNetworkModel
  | 12 => Some SiteModel | _ => None
  end%nat.

#[global] Instance Model_countable : Countable Model.
Proof.
  refine (inj_countable Model_to_nat Model_of_nat _).
  intros []; reflexivity.
Defined.

(** A path node is the pair (content type, primary key) of an object. *)
Definition Node : Type := Model * Z.

Definition node_eqb (a b : Node) : bool := bool_decide (a = b).

(** ** Links *)

Inductive LinkStatus := STATUS_CONNECTED | STATUS_PLANNED | STATUS_DECOMMISSIONING.

#[global] Instance LinkStatus_eq_dec : EqDecision LinkStatus.
Proof. solve_decision. Defined.

(** [_abs_length] is a decimal with four places; it is kept as the integer
    number of 1/10000 m. *)
Record Cable := {
  cable_pk : Z;
  cable_status : LinkStatus;
  _abs_length : option Z
}.

Record WirelessLink := {
  wl_pk : Z;
  wl_status : LinkStatus;
  interface_a : Z;
  interface_b : Z
}.

Inductive Link :=
| LinkCable (c : Cable)
| LinkWireless (w : WirelessLink).

Definition status (l : Link) : LinkStatus :=
  match l with
  | LinkCable c => cable_status c
  | LinkWireless w => wl_status w
  end.

Definition link_to_path_node (l : Link) : Node :=
  match l with
  | LinkCable c => (CableModel, cable_pk c)
  | LinkWireless w => (WirelessLinkModel, wl_pk w)
  end.

(** [a == b] on two optional model instances: same model and same key. *)
Definition link_eqb (a b : option Link) : bool :=
  match a, b with
  | None, None => true
  | Some x, Some y => node_eqb (link_to_path_node x) (link_to_path_node y)
  | _, _ => false
  end.

(** ** Terminations *)

Inductive EndpointModel :=
| Interface | ConsolePort | ConsoleServerPort | PowerPort | PowerOutlet | PowerFeed.

Inductive Parent :=
| Device (id : Z)
| Circuit (id : Z)
| PowerPanel (id : Z).

#[global] Instance Parent_eq_dec : EqDecision Parent.
Proof. solve_decision. Defined.

Inductive TermSide := SideA | SideZ.

#[global] Instance TermSide_eq_dec : EqDecision TermSide.
Proof. solve_decision. Defined.

Inductive CableEnd := EndA | EndB.

#[global] Instance CableEnd_eq_dec : EqDecision CableEnd.
Proof. solve_decision. Defined.

(** The attributes every termination has. *)
Record Base := {
  base_pk : Z;
  base_parent_object : Parent;
  base_link : option Link
}.

Inductive Termination :=
| Endpoint (m : EndpointModel) (b : Base)
| FrontPort (b : Base) (rear_port_id : Z) (rear_port_position : Z)
| RearPort (b : Base) (positions : Z)
| CircuitTermination (b : Base) (circuit : Z) (term_side : TermSide)
    (provider_network : option Z) (site : option Z) (cable : option Z).

Definition base (t : Termination) : Base :=
  match t with
  | Endpoint _ b => b
  | FrontPort b _ _ => b
  | RearPort b _ => b
  | CircuitTermination b _ _ _ _ _ => b
  end.

Definition pk (t : Termination) : Z := base_pk (base t).
Definition parent_object (t : Termination) : Parent := base_parent_object (base t).
Definition link (t : Termination) : option Link := base_link (base t).

Definition model_of (t : Termination) : Model :=
  match t with
  | Endpoint Interface _ => InterfaceModel
  | Endpoint ConsolePort _ => ConsolePortModel
  | Endpoint ConsoleServerPort _ => ConsoleServerPortModel
  | Endpoint PowerPort _ => PowerPortModel
  | Endpoint PowerOutlet _ => PowerOutletModel
  | Endpoint PowerFeed _ => PowerFeedModel
  | FrontPort _ _ _ => FrontPortModel
  | RearPort _ _ => RearPortModel
  | CircuitTermination _ _ _ _ _ _ => CircuitTerminationModel
  end.

(** [isinstance(t, type(t0))]: the termination models do not inherit from
    one another. *)
Definition isinstance (t t0 : Termination) : bool :=
  bool_decide (model_of t = model_of t0).

(** Modelled from the spec: [object_to_path_node] (dcim.utils, not under
    src) combines the entity's type tag and its numeric identity. *)
Definition object_to_path_node (t : Termination) : Node := (model_of t, pk t).

(** Attribute reads that exist on one model only. *)
Definition get_rear_port_id (t : Termination) : Result Z :=
  match t with
  | FrontPort _ r _ => Ok r
  | _ => Raise AttributeError
  end.

Definition get_rear_port_position (t : Termination) : Result Z :=
  match t with
  | FrontPort _ _ p => Ok p
  | _ => Raise AttributeError
  end.

Definition get_positions (t : Termination) : Result Z :=
  match t with
  | RearPort _ n => Ok n
  | _ => Raise AttributeError
  end.

Definition get_term_side (t : Termination) : Result TermSide :=
  match t with
  | CircuitTermination _ _ s _ _ _ => Ok s
  | _ => Raise AttributeError
  end.

(** ** The database *)

Record CableTermination := {
  ct_cable : Z;
  cable_end : CableEnd;
  termination_type : Model;
  termination_id : Z
}.

Record Topology := {
  (** rows of the termination models *)
  termination_objects : list Termination;
  (** rows of CableTermination, ordered by (cable, cable_end, pk) *)
  cable_termination_objects : list CableTermination;
  (** rows of Cable *)
  cable_objects : list Cable;
  (** Python's [is] on two model instances: whether the ORM hands back the
      very same instance is left to the environment. *)
  is_ : Termination -> Termination -> bool
}.

(** Resolution of a (content type, id) reference to the row it names. *)
Definition get_object (topo : Topology) (n : Node) : option Termination :=
  List.find (fun t => node_eqb (object_to_path_node t) n) (termination_objects topo).

(** [ct.termination] of a CableTermination (a generic foreign key). *)
Definition termination (topo : Topology) (ct : CableTermination) : Result Termination :=
  match get_object topo (termination_type ct, termination_id ct) with
  | Some t => Ok t
  | None => Raise AttributeError
  end.

Definition in_list (x : Z) (l : list Z) : bool := bool_decide (x ∈ l).

Definition is_rear_port (t : Termination) : bool :=
  match t with RearPort _ _ => true | _ => false end.

(** [RearPort.objects.filter(pk__in=ids)] *)
Definition RearPort_filter_pk_in (topo : Topology) (ids : list Z) : list Termination :=
  List.filter (fun t => is_rear_port t && in_list (pk t) ids) (termination_objects topo).

(** [FrontPort.objects.filter(rear_port_id__in=ids, rear_port_position=1)] and
    [FrontPort.objects.filter(rear_port_id=id, rear_port_position__in=ps)] are
    both instances of this filter. *)
Definition FrontPort_filter (topo : Topology) (ids : list Z) (ps : list Z) : list Termination :=
  List.filter
    (fun t => match t with
              | FrontPort _ r p => in_list r ids && in_list p ps
              | _ => false
              end)
    (termination_objects topo).

(** [CircuitTermination.objects.filter(circuit=c, term_side=s).first()] *)
Definition CircuitTermination_first (topo : Topology) (c : Z) (s : TermSide)
  : option Termination :=
  List.find
    (fun t => match t with
              | CircuitTermination _ c' s' _ _ _ => bool_decide (c' = c) && bool_decide (s' = s)
              | _ => false
              end)
    (termination_objects topo).

(** ** CablePath *)

Record CablePath := {
  cp_pk : option Z;
  path : list (list Node);
  is_active : bool;
  is_complete : bool;
  is_split : bool;
  (** [None] until [save] writes it *)
  _nodes : option (list Node);
  (** the [_path_objects] attribute, present once [path_objects] was read *)
  _path_objects : option (list (list Termination))
}.

(** [cls(path=..., is_complete=..., is_active=..., is_split=...)]: a fresh,
    unsaved instance; [_nodes] is written by [save], and is [None] before. *)
Definition cls (p : list (list Node)) (complete active split : bool) : CablePath :=
  {| cp_pk := None; path := p; is_active := active; is_complete := complete;
     is_split := split; _nodes := None; _path_objects := None |}.

(** ** The hop loop of [from_origin] *)

Module Loop.

(** The local variables of [from_origin]. *)
Record State := {
  terminations : list Termination;
  path : list (list Node);
  (** the top of the stack is the head of the list *)
  position_stack : list (list Z);
  is_complete : bool;
  is_active : bool;
  is_split : bool
}.

Definition set_path (p : list (list Node)) (s : State) : State :=
  {| terminations := terminations s; path := p;
     position_stack := position_stack s; is_complete := is_complete s;
     is_active := is_active s; is_split := is_split s |}.

Definition set_is_active (b : bool) (s : State) : State :=
  {| terminations := terminations s; path := path s;
     position_stack := position_stack s; is_complete := is_complete s;
     is_active := b; is_split := is_split s |}.

Definition set_is_complete (b : bool) (s : State) : State :=
  {| terminations := terminations s; path := path s;
     position_stack := position_stack s; is_complete := b;
     is_active := is_active s; is_split := is_split s |}.

Definition set_is_split (b : bool) (s : State) : State :=
  {| terminations := terminations s; path := path s;
     position_stack := position_stack s; is_complete := is_complete s;
     is_active := is_active s; is_split := b |}.

Definition set_position_stack (st : list (list Z)) (s : State) : State :=
  {| terminations := terminations s; path := path s;
     position_stack := st; is_complete := is_complete s;
     is_active := is_active s; is_split := is_split s |}.

Definition set_terminations (ts : list Termination) (s : State) : State :=
  {| terminations := ts; path := path s;
     position_stack := position_stack s; is_complete := is_complete s;
     is_active := is_active s; is_split := is_split s |}.

(** How one pass through the loop body ends. *)
Inductive Step :=
| Continue (s : State)
| Break (s : State)
| ReturnNone
| Throw (e : Exception).

End Loop.

Definition opposite_end (e : CableEnd) : CableEnd :=
  if bool_decide (e = EndB) then EndA else EndB.

Definition opposite_side (s : TermSide) : TermSide :=
  if bool_decide (s = SideA) then SideZ else SideA.

(** Step 4: the far-end terminations of [l], seen from [terminations]. *)
Definition remote_terminations_of (topo : Topology) (terminations : list Termination)
    (t0 : Termination) (l : Link) : Result (list Termination) :=
  match l with
  | LinkCable c =>
      let termination_type_ := model_of t0 in
      let local_cable_terminations :=
        List.filter
          (fun ct => bool_decide (termination_type ct = termination_type_)
                     && in_list (termination_id ct) (map pk terminations))
          (cable_termination_objects topo) in
      match local_cable_terminations with
      | [] => Raise IndexError
      | ct0 :: cts =>
          let local_cable_end := cable_end ct0 in
          if negb (forallb (fun ct => bool_decide (cable_end ct = local_cable_end)) cts)
          then Raise AssertionError
          else
            let remote_cable_terminations :=
              List.filter
                (fun ct => bool_decide (ct_cable ct = cable_pk c)
                           && bool_decide (cable_end ct = opposite_end local_cable_end))
                (cable_termination_objects topo) in
            traverse (termination topo) remote_cable_terminations
      end
  | LinkWireless w =>
      do a <- match get_object topo (InterfaceModel, interface_a w) with
              | Some a => Ok a
              | None => Raise DoesNotExist
              end;
      if is_ topo a t0
      then match get_object topo (InterfaceModel, interface_b w) with
           | Some b => Ok [b]
           | None => Raise DoesNotExist
           end
      else Ok [a]
  end.

Inductive Crossed :=
| Far (s : Loop.State) (remote_terminations : list Termination)
| Stop (st : Loop.Step).

(** Steps 1 to 5 of the loop body: record the near end, find the link,
    record it, find and record the far end. *)
Definition cross_link (topo : Topology) (s : Loop.State) : Crossed :=
  match Loop.terminations s with
  | [] => Stop (Loop.Throw IndexError)
  | t0 :: rest =>
      if negb (forallb (fun t => isinstance t t0) rest) then Stop (Loop.Throw AssertionError)
      else if negb (forallb (fun t => bool_decide (parent_object t = parent_object t0)) rest)
      then Stop (Loop.Throw AssertionError)
      else
        let s1 := Loop.set_path
                    (Loop.path s ++ [map object_to_path_node (Loop.terminations s)]) s in
        let link_ := link t0 in
        if negb (forallb (fun t => link_eqb (link t) link_) rest)
        then Stop (Loop.Throw AssertionError)
        else
          match link_ with
          | None =>
              if bool_decide (length (Loop.path s1) = 1%nat)
              then Stop Loop.ReturnNone
              else Stop (Loop.Break s1)
          | Some l =>
              let s2 := Loop.set_path (Loop.path s1 ++ [[link_to_path_node l]]) s1 in
              let s3 := if bool_decide (status l <> STATUS_CONNECTED)
                        then Loop.set_is_active false s2 else s2 in
              match remote_terminations_of topo (Loop.terminations s) t0 l with
              | Raise e => Stop (Loop.Throw e)
              | Ok remote_terminations =>
                  Far (Loop.set_path
                         (Loop.path s3 ++ [map object_to_path_node remote_terminations]) s3)
                      remote_terminations
              end
          end
  end.

Notation "'try' x <- r ; k" :=
  (match r with Ok x => k | Raise e => Loop.Throw e end)
  (at level 10, x name, r at level 100, k at level 200, only parsing).

(** [all(ct.term_side == term_side for ct in cts)], which stops at the first
    mismatch. *)
Fixpoint all_term_side (side : TermSide) (cts : list Termination) : Result bool :=
  match cts with
  | [] => Ok true
  | ct :: cts' =>
      do s <- get_term_side ct;
      if bool_decide (s = side) then all_term_side side cts' else Ok false
  end.

(** [all(rp.positions == 1 for rp in rear_ports)] *)
Fixpoint all_positions_1 (rear_ports : list Termination) : Result bool :=
  match rear_ports with
  | [] => Ok true
  | rp :: rps =>
      do n <- get_positions rp;
      if bool_decide (n = 1) then all_positions_1 rps else Ok false
  end.

(** Step 6 of the loop body: the next hop after [remote_terminations]. *)
Definition next_hop (topo : Topology) (s : Loop.State)
    (remote_terminations : list Termination) : Loop.Step :=
  match remote_terminations with
  | [] => Loop.Throw IndexError
  | FrontPort _ _ _ :: _ =>
      try ids <- traverse get_rear_port_id remote_terminations;
      let rear_ports := RearPort_filter_pk_in topo ids in
      if bool_decide (1 < length rear_ports)%nat then
        try ok <- all_positions_1 rear_ports;
        if ok then Loop.Continue (Loop.set_terminations rear_ports s)
        else Loop.Throw AssertionError
      else
        match rear_ports with
        | [] => Loop.Throw IndexError
        | rp0 :: _ =>
            try n <- get_positions rp0;
            if bool_decide (1 < n) then
              try ps <- traverse get_rear_port_position remote_terminations;
              Loop.Continue
                (Loop.set_terminations rear_ports
                   (Loop.set_position_stack (ps :: Loop.position_stack s) s))
            else Loop.Continue (Loop.set_terminations rear_ports s)
        end
  | RearPort _ positions0 as rp0 :: _ =>
      if bool_decide (1 < length remote_terminations)%nat || bool_decide (positions0 = 1)
      then
        Loop.Continue
          (Loop.set_terminations (FrontPort_filter topo (map pk remote_terminations) [1]) s)
      else
        match Loop.position_stack s with
        | top :: stack' =>
            Loop.Continue
              (Loop.set_terminations (FrontPort_filter topo [pk rp0] top)
                 (Loop.set_position_stack stack' s))
        | [] => Loop.Break (Loop.set_is_split true s)
        end
  | CircuitTermination _ circuit0 term_side0 _ _ _ :: rest =>
      try ok <- all_term_side term_side0 rest;
      if negb ok then Loop.Throw AssertionError
      else
        match CircuitTermination_first topo circuit0 (opposite_side term_side0) with
        | None => Loop.Break s
        | Some circuit_termination =>
            match circuit_termination with
            | CircuitTermination _ _ _ (Some pn) _ _ =>
                Loop.Break
                  (Loop.set_path
                     (Loop.path s ++ [[object_to_path_node circuit_termination];
                                      [(ProviderNetworkModel, pn)]]) s)
            | CircuitTermination _ _ _ None (Some st) None =>
                Loop.Break
                  (Loop.set_path
                     (Loop.path s ++ [[object_to_path_node circuit_termination];
                                      [(SiteModel, st)]]) s)
            | _ => Loop.Continue (Loop.set_terminations [circuit_termination] s)
            end
        end
  | Endpoint _ _ :: _ => Loop.Break (Loop.set_is_complete true s)
  end.

Definition loop_body (topo : Topology) (s : Loop.State) : Loop.Step :=
  match cross_link topo s with
  | Far s' remote_terminations => next_hop topo s' remote_terminations
  | Stop st => st
  end.

(** The instance built by the [return cls(...)] after the loop. *)
Definition finish (s : Loop.State) : CablePath :=
  cls (Loop.path s) (Loop.is_complete s) (Loop.is_active s) (Loop.is_split s).

(** [while terminations: ...] followed by the final [return].  [None] means
    that [fuel] passes through the loop were not enough. *)
Fixpoint while_loop (fuel : nat) (topo : Topology) (s : Loop.State)
  : option (Result (option CablePath)) :=
  match fuel with
  | O => None
  | S fuel' =>
      match Loop.terminations s with
      | [] => Some (Ok (Some (finish s)))
      | _ :: _ =>
          match loop_body topo s with
          | Loop.Continue s' => while_loop fuel' topo s'
          | Loop.Break s' => Some (Ok (Some (finish s')))
          | Loop.ReturnNone => Some (Ok None)
          | Loop.Throw e => Some (Raise e)
          end
      end
  end.

Definition initial (terminations : list Termination) : Loop.State :=
  {| Loop.terminations := terminations; Loop.path := []; Loop.position_stack := [];
     Loop.is_complete := false; Loop.is_active := true; Loop.is_split := false |}.

Definition from_origin (fuel : nat) (topo : Topology) (terminations : list Termination)
  : option (Result (option CablePath)) :=
  while_loop fuel topo (initial terminations).

(** ** Accessors of a CablePath *)

(** Modelled from the spec: [path_node_to_object] (dcim.utils, not under
    src) looks the node's entity up by type tag and identity; the nodes
    decoded below name terminations, and a node naming no row raises. *)
Definition path_node_to_object (topo : Topology) (n : Node) : Result Termination :=
  match get_object topo n with
  | Some t => Ok t
  | None => Raise DoesNotExist
  end.

(** Modelled from the spec: [flatten_path] (dcim.utils, not under src)
    concatenates all hop-groups' nodes into one ordered sequence. *)
Definition flatten_path (p : list (list Node)) : list Node := concat p.

(** Modelled from the spec: [decompile_path_node] (dcim.utils, not under
    src) gives back the type tag and the identity of a node. *)
Definition decompile_path_node (n : Node) : Model * Z := n.

Definition origins (topo : Topology) (self : CablePath) : Result (list Termination) :=
  match _path_objects self with
  | Some path_objects =>
      match path_objects with
      | [] => Raise IndexError
      | g :: _ => Ok g
      end
  | None =>
      match path self with
      | [] => Raise IndexError
      | g :: _ => traverse (path_node_to_object topo) g
      end
  end.

Definition destinations (topo : Topology) (self : CablePath) : Result (list Termination) :=
  if negb (is_complete self) then Ok []
  else
    match _path_objects self with
    | Some path_objects =>
        match last path_objects with
        | None => Raise IndexError
        | Some g => Ok g
        end
    | None =>
        match last (path self) with
        | None => Raise IndexError
        | Some g => traverse (path_node_to_object topo) g
        end
    end.

Definition destination_type (self : CablePath) : Result (option Model) :=
  if negb (is_complete self) then Ok None
  else
    match last (path self) with
    | None => Raise IndexError
    | Some [] => Raise IndexError
    | Some (n :: _) => Ok (Some (fst (decompile_path_node n)))
    end.

(** The loop of [get_cable_ids] over the nodes. *)
Definition cable_ids_of (nodes : list Node) : list Z :=
  map (fun n => snd (decompile_path_node n))
    (List.filter (fun n => bool_decide (fst (decompile_path_node n) = CableModel))
       nodes).

(** Iterating over [self._nodes] raises [TypeError] while it is [None]. *)
Definition get_cable_ids (self : CablePath) : Result (list Z) :=
  match _nodes self with
  | None => Raise TypeError
  | Some nodes => Ok (cable_ids_of nodes)
  end.

Definition has_length (c : Cable) : bool :=
  match _abs_length c with Some _ => true | None => false end.

(** [Sum('_abs_length')] over a queryset: NULL when there is no row. *)
Definition Sum_abs_length (cables : list Cable) : option Z :=
  match cables with
  | [] => None
  | _ :: _ => Some (foldr (fun c acc => default 0 (_abs_length c) + acc) 0 cables)
  end.

(** The body of [get_total_length] once the cable ids are known. *)
Definition total_length_of (topo : Topology) (cable_ids : list Z) : option Z * bool :=
  let cables :=
    List.filter (fun c => in_list (cable_pk c) cable_ids && has_length c)
      (cable_objects topo) in
  let total_length := Sum_abs_length cables in
  let is_definitive := bool_decide (length cables = length cable_ids) in
  (total_length, is_definitive).

Definition get_total_length (topo : Topology) (self : CablePath)
  : Result (option Z * bool) :=
  do cable_ids <- get_cable_ids self;
  Ok (total_length_of topo cable_ids).

(** ** Saving, deleting and retracing *)

(** A stored row of the CablePath table. *)
Record Row := {
  row_path : list (list Node);
  row_is_active : bool;
  row_is_complete : bool;
  row_is_split : bool;
  row_nodes : list Node
}.

Record Database := {
  topology : Topology;
  (** the CablePath table, by primary key *)
  cable_paths : gmap Z Row;
  (** the [_path] column of the termination tables: the CablePath each
      termination refers back to, by (content type, id) of the termination *)
  _path : gmap Node Z;
  (** the next primary key the CablePath table hands out *)
  next_pk : Z
}.

Definition row_of (self : CablePath) : Row :=
  {| row_path := path self; row_is_active := is_active self;
     row_is_complete := is_complete self; row_is_split := is_split self;
     row_nodes := default [] (_nodes self) |}.

(** [origin_model.objects.filter(pk__in=origin_ids)] *)
Definition filter_pk_in (topo : Topology) (m : Model) (ids : list Z) : list Termination :=
  List.filter (fun t => bool_decide (model_of t = m) && in_list (pk t) ids)
    (termination_objects topo).

(** Modelled from the spec: the models that carry the [_path]
    back-reference (declared in dcim.models.device_components, not under
    src) are those of the terminations capable of starting a path, the path
    endpoints; an update of [_path] on another model raises. *)
Definition has_path_field (m : Model) : bool :=
  match m with
  | InterfaceModel | ConsolePortModel | ConsoleServerPortModel
  | PowerPortModel | PowerOutletModel | PowerFeedModel => true
  | _ => false
  end.

(** [queryset.update(_path=k)] *)
Definition update_path (rows : list Termination) (k : Z) (col : gmap Node Z) : gmap Node Z :=
  foldr (fun t m => <[object_to_path_node t := k]> m) col rows.

(** [save]: the row is written first, then the back-reference of the
    origins.  A call that raises returns the exception only: the rows it
    wrote before raising are not part of the result. *)
Definition save (db : Database) (self : CablePath) : Result (Database * CablePath) :=
  let nodes := flatten_path (path self) in
  (* super().save(): an unsaved instance gets the next key *)
  let k := default (next_pk db) (cp_pk self) in
  let self' :=
    {| cp_pk := Some k; path := path self; is_active := is_active self;
       is_complete := is_complete self; is_split := is_split self;
       _nodes := Some nodes; _path_objects := _path_objects self |} in
  let next := match cp_pk self with Some _ => next_pk db | None => next_pk db + 1 end in
  do origins_ <- origins (topology db) self';
  match origins_ with
  | [] => Raise IndexError
  | o0 :: _ =>
      let origin_model := model_of o0 in
      let origin_ids := map pk origins_ in
      if negb (has_path_field origin_model) then Raise FieldDoesNotExist
      else
      Ok ({| topology := topology db;
             cable_paths := <[k := row_of self']> (cable_paths db);
             _path := update_path (filter_pk_in (topology db) origin_model origin_ids) k
                        (_path db);
             next_pk := next |},
          self')
  end.

(** Modelled from the spec: the on-delete rule of the [_path] back-reference
    (declared with the termination models in dcim.models.device_components,
    not under src): the reference is updated when the path is deleted, so a
    termination that referred to the deleted path refers to none. *)
Definition clear_path (k : Z) (col : gmap Node Z) : gmap Node Z :=
  filter (fun kv => snd kv <> k) col.

Definition delete (db : Database) (self : CablePath) : Result (Database * CablePath) :=
  match cp_pk self with
  | None => Raise ValueError
  | Some k =>
      Ok ({| topology := topology db;
             cable_paths := base.delete k (cable_paths db);
             _path := clear_path k (_path db);
             next_pk := next_pk db |},
          {| cp_pk := None; path := path self; is_active := is_active self;
             is_complete := is_complete self; is_split := is_split self;
             _nodes := _nodes self; _path_objects := _path_objects self |})
  end.

Definition retrace (fuel : nat) (db : Database) (self : CablePath)
  : option (Result (Database * CablePath)) :=
  match origins (topology db) self with
  | Raise e => Some (Raise e)
  | Ok origins_ =>
      match from_origin fuel (topology db) origins_ with
      | None => None
      | Some (Raise e) => Some (Raise e)
      | Some (Ok (Some _new)) =>
          Some (save db
                  {| cp_pk := cp_pk self; path := path _new;
                     is_active := is_active _new; is_complete := is_complete _new;
                     is_split := is_split _new; _nodes := _nodes self;
                     _path_objects := _path_objects self |})
      | Some (Ok None) => Some (delete db self)
      end
  end.

(** ** Runs of the hop loop *)

(** The state at the head of the loop after [k] full passes, if the loop
    gets that far. *)
Fixpoint hops (topo : Topology) (k : nat) (s : Loop.State) : option Loop.State :=
  match k with
  | O => Some s
  | S k' =>
      match Loop.terminations s with
      | [] => None
      | _ :: _ =>
          match loop_body topo s with
          | Loop.Continue s' => hops topo k' s'
          | _ => None
          end
      end
  end.

(** ** The hop graph of a topology *)

(** The rows a pass of the loop can continue with once it has reached the
    far end [remote] of a link: the rear ports of far-end front ports, the
    front ports attached to far-end rear ports, the other side of the
    circuit of a far-end circuit termination; nothing lies behind a path
    endpoint. *)
Definition behind (topo : Topology) (remote : list Termination) (t' : Termination) : Prop :=
  In t' (termination_objects topo)
  /\ match remote with
     | FrontPort _ _ _ :: _ =>
         is_rear_port t' = true /\ exists b p, In (FrontPort b (pk t') p) remote
     | RearPort _ _ :: _ =>
         exists b r p, t' = FrontPort b r p /\ In r (map pk remote)
     | CircuitTermination _ circuit0 term_side0 _ _ _ :: _ =>
         exists b pn st cb,
           t' = CircuitTermination b circuit0 (opposite_side term_side0) pn st cb
     | _ => False
     end.

(** One hop in the topology: from a set of terminations that has a link,
    across the link, to a row behind its far end. *)
Definition hop (topo : Topology) (terminations : list Termination) (t' : Termination)
  : Prop :=
  exists t0 rest l remote,
    terminations = t0 :: rest
    /\ link t0 = Some l
    /\ remote_terminations_of topo terminations t0 l = Ok remote
    /\ behind topo remote t'.

(** The number of passes a set of rank [rank] at its head allows for. *)
Definition head_rank (rank : Termination -> nat) (terminations : list Termination) : nat :=
  match terminations with
  | [] => 0
  | t0 :: _ => S (rank t0)
  end.

(** ** Shapes of a path *)

Definition is_link_node (n : Node) : bool :=
  match fst n with
  | CableModel | WirelessLinkModel => true
  | _ => false
  end.

Definition is_termination_node (n : Node) : bool :=
  match fst n with
  | CableModel | WirelessLinkModel | ProviderNetworkModel | SiteModel => false
  | _ => true
  end.

(** A termination hop-group: not empty, terminations only. *)
Definition termination_group (g : list Node) : bool :=
  match g with
  | [] => false
  | _ :: _ => forallb is_termination_node g
  end.

(** A link hop-group: exactly one node, a link. *)
Definition link_group (g : list Node) : bool :=
  match g with
  | [n] => is_link_node n
  | _ => false
  end.

(** The claimed shape: termination and link hop-groups in strict
    alternation, a termination hop-group first. *)
Fixpoint alternates_from (expect_link : bool) (p : list (list Node)) : bool :=
  match p with
  | [] => true
  | g :: p' =>
      (if expect_link then link_group g else termination_group g)
      && alternates_from (negb expect_link) p'
  end.

Definition strictly_alternates (p : list (list Node)) : bool := alternates_from false p.

(** The end of a circuit: the paired circuit termination, then its provider
    network or its site. *)
Definition circuit_end (a b : list Node) : bool :=
  match a, b with
  | [(CircuitTerminationModel, _)], [(ProviderNetworkModel, _)] => true
  | [(CircuitTerminationModel, _)], [(SiteModel, _)] => true
  | _, _ => false
  end.

(** The shape the loop builds: segments of (near end, link, far end),
    closed by nothing, by one more near end, or by the end of a circuit. *)
Fixpoint segmented (p : list (list Node)) : bool :=
  match p with
  | [] => true
  | [near] => termination_group near
  | [a; b] => circuit_end a b
  | near :: lnk :: far :: rest =>
      termination_group near && link_group lnk && termination_group far && segmented rest
  end.

(** Whole segments only. *)
Fixpoint segments (p : list (list Node)) : bool :=
  match p with
  | [] => true
  | near :: lnk :: far :: rest =>
      termination_group near && link_group lnk && termination_group far && segments rest
  | _ => false
  end.

(** ** Sample topologies *)

Module Sample.

Definition cable (id : Z) (st : LinkStatus) (len : option Z) : Cable :=
  {| cable_pk := id; cable_status := st; _abs_length := len |}.

Definition on (id : Z) (parent : Parent) (c : option Cable) : Base :=
  {| base_pk := id; base_parent_object := parent; base_link := LinkCable <$> c |}.

Definition joins (c : Z) (e : CableEnd) (m : Model) (id : Z) : CableTermination :=
  {| ct_cable := c; cable_end := e; termination_type := m; termination_id := id |}.

Definition c1 := cable 1 STATUS_CONNECTED (Some 10000).
Definition c2 := cable 2 STATUS_CONNECTED (Some 250000).
Definition c3 := cable 3 STATUS_CONNECTED (Some 5000).
Definition c4 := cable 4 STATUS_CONNECTED (Some 10000).

(** Interface A --c1-- front port F1 | rear port R1 (one position), and
    nothing plugged into R1; Interface C has no cable. *)
Module Open.
Definition ifA := Endpoint Interface (on 1 (Device 1) (Some c1)).
Definition ifC := Endpoint Interface (on 3 (Device 3) None).
Definition f1 := FrontPort (on 1 (Device 10) (Some c1)) 1 1.
Definition r1 := RearPort (on 1 (Device 10) None) 1.
Definition topo : Topology :=
  {| termination_objects := [ifA; ifC; f1; r1];
     cable_termination_objects :=
       [joins 1 EndA InterfaceModel 1; joins 1 EndB FrontPortModel 1];
     cable_objects := [c1];
     is_ := fun _ _ => false |}.
(** a stored path whose origin, Interface C, has lost its cable; C still
    refers back to it *)
Definition unlinked : CablePath :=
  {| cp_pk := Some 4;
     path := [[(InterfaceModel, 3)]; [(CableModel, 9)]; [(InterfaceModel, 7)]];
     is_active := true; is_complete := true; is_split := false;
     _nodes := Some [(InterfaceModel, 3); (CableModel, 9); (InterfaceModel, 7)];
     _path_objects := None |}.
Definition db : Database :=
  {| topology := topo;
     cable_paths := {[ 4 := row_of unlinked ]};
     _path := {[ (InterfaceModel, 3) := 4 ]};
     next_pk := 5 |}.
End Open.

(** Interface A --c1-- F1 | R1 --c2-- R2 | G1 --c3-- G2 | R2 --c2-- R1 | F2
    --c4-- Interface B: a two-position trunk c2 whose far panel has its
    two front ports patched together, so the signal comes back over c2. *)
Module Loopback.
Definition ifA := Endpoint Interface (on 1 (Device 1) (Some c1)).
Definition ifB := Endpoint Interface (on 2 (Device 2) (Some c4)).
Definition f1 := FrontPort (on 1 (Device 10) (Some c1)) 1 1.
Definition f2 := FrontPort (on 2 (Device 10) (Some c4)) 1 2.
Definition r1 := RearPort (on 1 (Device 10) (Some c2)) 2.
Definition r2 := RearPort (on 2 (Device 20) (Some c2)) 2.
Definition g1 := FrontPort (on 3 (Device 20) (Some c3)) 2 1.
Definition g2 := FrontPort (on 4 (Device 20) (Some c3)) 2 2.
Definition topo : Topology :=
  {| termination_objects := [ifA; ifB; f1; f2; g1; g2; r1; r2];
     cable_termination_objects :=
       [joins 1 EndA InterfaceModel 1; joins 1 EndB FrontPortModel 1;
        joins 2 EndA RearPortModel 1; joins 2 EndB RearPortModel 2;
        joins 3 EndA FrontPortModel 3; joins 3 EndB FrontPortModel 4;
        joins 4 EndA FrontPortModel 2; joins 4 EndB InterfaceModel 2];
     cable_objects := [c1; c2; c3; c4];
     is_ := fun _ _ => false |}.
Definition db : Database :=
  {| topology := topo; cable_paths := ∅; _path := ∅; next_pk := 1 |}.
(** a stored path from A whose content is out of date *)
Definition stale : CablePath :=
  {| cp_pk := Some 1;
     path := [[(InterfaceModel, 1)]; [(CableModel, 9)]; [(InterfaceModel, 7)]];
     is_active := false; is_complete := true; is_split := false;
     _nodes := Some [(InterfaceModel, 1); (CableModel, 9); (InterfaceModel, 7)];
     _path_objects := None |}.
(** the loop's state after the first pass of the trace from A, and after
    the link is crossed in the second pass *)
Definition pass1 : Loop.State :=
  Eval vm_compute in default (initial []) (hops topo 1 (initial [ifA])).
Definition pass2_crossed : Loop.State :=
  Eval vm_compute in
    match cross_link topo pass1 with Far s1 _ => s1 | Stop _ => initial [] end.
End Loopback.

(** Interface A --c1-- front port F9 (position 2 of R1); R1 (two
    positions) --c2-- front port F1 (position 1 of the same R1). *)
Module Cyclic.
Definition ifA := Endpoint Interface (on 1 (Device 1) (Some c1)).
Definition f9 := FrontPort (on 9 (Device 10) (Some c1)) 1 2.
Definition f1 := FrontPort (on 1 (Device 10) (Some c2)) 1 1.
Definition r1 := RearPort (on 1 (Device 10) (Some c2)) 2.
Definition topo : Topology :=
  {| termination_objects := [ifA; f1; f9; r1];
     cable_termination_objects :=
       [joins 1 EndA InterfaceModel 1; joins 1 EndB FrontPortModel 9;
        joins 2 EndA RearPortModel 1; joins 2 EndB FrontPortModel 1];
     cable_objects := [c1; c2];
     is_ := fun _ _ => false |}.
End Cyclic.

(** Interface A --c1-- circuit termination (side A of circuit 7), whose
    side Z is attached to provider network 5. *)
Module Provider.
Definition ifA := Endpoint Interface (on 1 (Device 1) (Some c1)).
Definition ctA := CircuitTermination (on 1 (Circuit 7) (Some c1)) 7 SideA None (Some 3) (Some 1).
Definition ctZ := CircuitTermination (on 2 (Circuit 7) None) 7 SideZ (Some 5) None None.
Definition topo : Topology :=
  {| termination_objects := [ifA; ctA; ctZ];
     cable_termination_objects :=
       [joins 1 EndA InterfaceModel 1; joins 1 EndB CircuitTerminationModel 1];
     cable_objects := [c1];
     is_ := fun _ _ => false |}.
(** the loop's state once c1 is crossed in the first pass from A *)
Definition pass1_crossed : Loop.State :=
  Eval vm_compute in
    match cross_link topo (initial [ifA]) with
    | Far s1 _ => s1
    | Stop _ => initial []
    end.
End Provider.

(** Interface A --c5 (planned)-- Interface B. *)
Module Planned.
Definition c5 := cable 5 STATUS_PLANNED None.
Definition ifA := Endpoint Interface (on 1 (Device 1) (Some c5)).
Definition ifB := Endpoint Interface (on 2 (Device 2) (Some c5)).
Definition topo : Topology :=
  {| termination_objects := [ifA; ifB];
     cable_termination_objects :=
       [joins 5 EndA InterfaceModel 1; joins 5 EndB InterfaceModel 2];
     cable_objects := [c5];
     is_ := fun _ _ => false |}.
End Planned.

(** Interface A --c1-- rear port R1 (two positions), with front ports F1
    and F2 attached to R1: the trace from A reaches R1 with no position to
    pick a front port by. *)
Module Split.
Definition ifA := Endpoint Interface (on 1 (Device 1) (Some c1)).
Definition f1 := FrontPort (on 1 (Device 10) None) 1 1.
Definition f2 := FrontPort (on 2 (Device 10) None) 1 2.
Definition r1 := RearPort (on 1 (Device 10) (Some c1)) 2.
Definition topo : Topology :=
  {| termination_objects := [ifA; f1; f2; r1];
     cable_termination_objects :=
       [joins 1 EndA InterfaceModel 1; joins 1 EndB RearPortModel 1];
     cable_objects := [c1];
     is_ := fun _ _ => false |}.
Definition db : Database :=
  {| topology := topo; cable_paths := ∅; _path := ∅; next_pk := 1 |}.
(** the path [from_origin] returns for A, not saved yet *)
Definition traced : CablePath :=
  Eval vm_compute in
    match from_origin 2 topo [ifA] with
    | Some (Ok (Some cp)) => cp
    | _ => cls [] false false false
    end.
End Split.

End Sample.

(** ** Reading a far-end set *)




(** ** More accessors of a CablePath *)

Definition origin_type (self : CablePath) : Result Model :=
  match path self with
  | [] => Raise IndexError
  | [] :: _ => Raise IndexError
  | (n :: _) :: _ => Ok (fst (decompile_path_node n))
  end.

(** [int(len(self.path) / 3)]: a path is far too short for the float
    quotient to round across an integer, so this is the integer quotient. *)
Definition segment_count (self : CablePath) : nat := (length (path self) / 3)%nat.

(** [FrontPort.objects.filter(rear_port=rearport)]: the ORM refuses an
    instance of another model. *)
Definition FrontPort_filter_rear_port (topo : Topology) (rearport : Termination)
  : Result (list Termination) :=
  match rearport with
  | RearPort b _ =>
      Ok (List.filter
            (fun t => match t with
                      | FrontPort _ r _ => bool_decide (r = base_pk b)
                      | _ => false
                      end)
            (termination_objects topo))
  | _ => Raise ValueError
  end.

Definition get_split_nodes (topo : Topology) (self : CablePath) : Result (list Termination) :=
  match _nodes self with
  | None => Raise TypeError
  | Some nodes =>
      match last nodes with
      | None => Raise IndexError
      | Some n =>
          do rearport <- path_node_to_object topo n;
          FrontPort_filter_rear_port topo rearport
      end
  end.

(** ** Cable *)

(** [[term.termination for term in
    CableTermination.objects.filter(cable=self, cable_end=e)]]; a generic
    foreign key that names no row reads as [None]. *)
Definition get_terminations (topo : Topology) (self : Cable) (e : CableEnd)
  : list (option Termination) :=
  map (fun term => get_object topo (termination_type term, termination_id term))
    (List.filter
       (fun term => bool_decide (ct_cable term = cable_pk self)
                    && bool_decide (cable_end term = e))
       (cable_termination_objects topo)).

Definition get_a_terminations (topo : Topology) (self : Cable) : list (option Termination) :=
  get_terminations topo self EndA.

Definition get_b_terminations (topo : Topology) (self : Cable) : list (option Termination) :=
  get_terminations topo self EndB.

Module CableInstance.
(** A Cable instance in memory, with the fields [clean] and [save] read and
    write.  [length] is a decimal with two places, kept as the integer number
    of hundredths; [_abs_length] is as in the stored row. *)
Record t := {
  pk : option Z;
  status : LinkStatus;
  length : option Z;
  length_unit : string;
  _abs_length : option Z;
  _pk : option Z
}.
End CableInstance.

Inductive Validated (A : Type) :=
| Valid (a : A)
| ValidationError (message : string).
Arguments Valid {A} a.
Arguments ValidationError {A} message.

(** [Cable.clean]; [super_clean] is the base model's [clean], which lives
    outside this file. *)
Definition Cable_clean
    (super_clean : CableInstance.t -> Validated CableInstance.t)
    (self : CableInstance.t) : Validated CableInstance.t :=
  match super_clean self with
  | ValidationError m => ValidationError m
  | Valid self =>
      match CableInstance.length self with
      | Some _ =>
          if bool_decide (CableInstance.length_unit self = "")
          then ValidationError "Must specify a unit when setting a cable length"
          else Valid self
      | None =>
          Valid {| CableInstance.pk := CableInstance.pk self;
                   CableInstance.status := CableInstance.status self;
                   CableInstance.length := CableInstance.length self;
                   CableInstance.length_unit := "";
                   CableInstance._abs_length := CableInstance._abs_length self;
                   CableInstance._pk := CableInstance._pk self |}
      end
  end.

(** Truth value of [self.length]: a decimal that is present and not zero. *)
Definition length_is_true (l : option Z) : bool :=
  match l with
  | Some x => negb (bool_decide (x = 0))
  | None => false
  end.

(** [Cable.save]; [to_meters] (utilities.utils) is taken as given, and
    [next] is the key the table hands to a new row. *)
Definition Cable_save (to_meters : Z -> string -> Result Z) (next : Z)
    (self : CableInstance.t) : Result CableInstance.t :=
  do abs <- (if length_is_true (CableInstance.length self)
                && negb (bool_decide (CableInstance.length_unit self = ""))
             then do m <- to_meters (default 0 (CableInstance.length self))
                            (CableInstance.length_unit self);
                  Ok (Some m)
             else Ok None);
  let k := default next (CableInstance.pk self) in
  Ok {| CableInstance.pk := Some k;
        CableInstance.status := CableInstance.status self;
        CableInstance.length := CableInstance.length self;
        CableInstance.length_unit := CableInstance.length_unit self;
        CableInstance._abs_length := abs;
        CableInstance._pk := Some k |}.

(** The row of the Cable table a saved instance is written to. *)
Definition Cable_row (self : CableInstance.t) : Cable :=
  {| cable_pk := default 0 (CableInstance.pk self);
     cable_status := CableInstance.status self;
     _abs_length := CableInstance._abs_length self |}.

(** Sample cables in memory: one with a unit and no length, one of length
    zero with a stale normalized length. *)
Module SampleCable.
Definition unit_only : CableInstance.t :=
  {| CableInstance.pk := None; CableInstance.status := STATUS_CONNECTED;
     CableInstance.length := None; CableInstance.length_unit := "m";
     CableInstance._abs_length := None; CableInstance._pk := None |}.
Definition zero : CableInstance.t :=
  {| CableInstance.pk := None; CableInstance.status := STATUS_CONNECTED;
     CableInstance.length := Some 0; CableInstance.length_unit := "m";
     CableInstance._abs_length := Some 7; CableInstance._pk := None |}.
(** a stand-in for [to_meters]: lengths in hundredths of the unit, scaled to
    ten-thousandths *)
Definition scale (l : Z) (unit : string) : Result Z := Ok (l * 100).
End SampleCable.

(** ** Tag filters (extras/filtersets.py) *)

Record ContentType := {
  content_type_pk : Z;
  app_label : string;
  model : string
}.

Record Tag := {
  tag_pk : Z;
  tag_name : string;
  tag_slug : string
}.

#[global] Instance Tag_eq_dec : EqDecision Tag.
Proof. solve_decision. Defined.

(** A row of the tagged-item table: the tag and the content type of the
    object it is attached to. *)
Record TaggedItem := {
  tagged_tag : Z;
  tagged_content_type : Z
}.

Record TagTables := {
  content_type_objects : list ContentType;
  tagged_item_objects : list TaggedItem
}.

(** [s.split(sep)] for a one-character separator. *)
Fixpoint split (sep : Ascii.ascii) (s : string) : list string :=
  match s with
  | EmptyString => [EmptyString]
  | String c s' =>
      if bool_decide (c = sep) then EmptyString :: split sep s'
      else match split sep s' with
           | h :: t => String c h :: t
           | [] => [String c EmptyString]
           end
  end.

(** A disjunction of [Q(app_label=a, model=m)] terms; [Q()] is no term at
    all and, as a filter, keeps every row. *)
Definition Q : Type := list (string * string).

Definition filter_Q (q : Q) (rows : list ContentType) : list ContentType :=
  match q with
  | [] => rows
  | _ :: _ =>
      List.filter
        (fun ct => bool_decide ((app_label ct, model ct) ∈ q))
        rows
  end.

(** [queryset.filter(extras_taggeditem_items__content_type__in=content_types)
    .distinct()]: the join yields a tag once per matching tagged item. *)
Definition tagged_with (tables : TagTables) (queryset : list Tag)
    (content_types : list ContentType) : list Tag :=
  remove_dups
    (flat_map
       (fun tag =>
          map (fun _ => tag)
            (List.filter
               (fun item => bool_decide (tagged_tag item = tag_pk tag)
                            && in_list (tagged_content_type item)
                                 (map content_type_pk content_types))
               (tagged_item_objects tables)))
       queryset).

(** [TagFilterSet._content_type]; [lower] is [str.lower].  A value that does
    not unpack into exactly two parts raises [ValueError], which is passed
    over. *)
Definition _content_type (lower : string -> string) (tables : TagTables)
    (queryset : list Tag) (values : list string) : list Tag :=
  let ct_filter : Q :=
    flat_map
      (fun value => match split "."%char (lower value) with
                    | [app_label_; model_] => [(app_label_, model_)]
                    | _ => []
                    end)
      values in
  let content_types := filter_Q ct_filter (content_type_objects tables) in
  tagged_with tables queryset content_types.

(** [TagFilterSet._content_type_id] *)
Definition _content_type_id (tables : TagTables) (queryset : list Tag)
    (values : list Z) : list Tag :=
  let content_types :=
    List.filter (fun ct => in_list (content_type_pk ct) values)
      (content_type_objects tables) in
  tagged_with tables queryset content_types.

(** [LocalConfigContextFilterSet._local_context_data]:
    [queryset.exclude(local_context_data__isnull=value)] over rows whose
    [local_context_data] is read by [data]. *)
Definition _local_context_data {A D} (data : A -> option D) (queryset : list A)
    (value : bool) : list A :=
  List.filter
    (fun row => negb (bool_decide ((match data row with None => true | Some _ => false end)
                                   = value)))
    queryset.

(** The number of occurrences of a character in a string. *)
Fixpoint occurrences (c : Ascii.ascii) (s : string) : nat :=
  match s with
  | EmptyString => O
  | String c' s' => (if bool_decide (c' = c) then 1 else 0) + occurrences c s'
  end%nat.

Module SampleTags.
Definition tables : TagTables :=
  {| content_type_objects :=
       [ {| content_type_pk := 1; app_label := "dcim"; model := "device" |};
         {| content_type_pk := 2; app_label := "dcim"; model := "site" |} ];
     tagged_item_objects :=
       [ {| tagged_tag := 1; tagged_content_type := 1 |};
         {| tagged_tag := 1; tagged_content_type := 2 |};
         {| tagged_tag := 2; tagged_content_type := 2 |} ] |}.
Definition red := {| tag_pk := 1; tag_name := "red"; tag_slug := "red" |}.
Definition blue := {| tag_pk := 2; tag_name := "blue"; tag_slug := "blue" |}.
Definition unused := {| tag_pk := 3; tag_name := "unused"; tag_slug := "unused" |}.
End SampleTags.

(** * Properties *)

Ltac step_cases H :=
  repeat (match type of H with
          | context [match ?x with _ => _ end] => destruct x eqn:?
          | context [if ?x then _ else _] => destruct x eqn:?
          end; try discriminate H).

(** ** The loop body, case by case *)

Lemma while_loop_unfold (fuel : nat) (topo : Topology) (s : Loop.State) t0 rest :
  Loop.terminations s = t0 :: rest ->
  while_loop (S fuel) topo s =
    match loop_body topo s with
    | Loop.Continue s' => while_loop fuel topo s'
    | Loop.Break s' => Some (Ok (Some (finish s')))
    | Loop.ReturnNone => Some (Ok None)
    | Loop.Throw e => Some (Raise e)
    end.
Proof. intros E. simpl. rewrite E. reflexivity. Qed.

Lemma while_loop_hops (topo : Topology) (k n : nat) (s s' : Loop.State) :
  hops topo k s = Some s' ->
  while_loop (k + n) topo s = while_loop n topo s'.
Proof.
  revert s. induction k as [|k IH]; intros s H; simpl in *.
  - congruence.
  - destruct (Loop.terminations s); [discriminate|].
    destruct (loop_body topo s); try discriminate.
    now apply IH.
Qed.

Lemma cross_link_Far (topo : Topology) (s s1 : Loop.State) remote :
  cross_link topo s = Far s1 remote ->
  exists t0 rest l,
    Loop.terminations s = t0 :: rest /\ link t0 = Some l /\
    remote_terminations_of topo (t0 :: rest) t0 l = Ok remote /\
    forallb (fun t => isinstance t t0) rest = true /\
    Loop.terminations s1 = t0 :: rest /\
    Loop.path s1 =
      Loop.path s ++ [map object_to_path_node (t0 :: rest); [link_to_path_node l];
                      map object_to_path_node remote] /\
    Loop.position_stack s1 = Loop.position_stack s /\
    Loop.is_complete s1 = Loop.is_complete s /\
    Loop.is_split s1 = Loop.is_split s /\
    Loop.is_active s1 =
      (if bool_decide (status l <> STATUS_CONNECTED) then false else Loop.is_active s).
Proof.
  unfold cross_link. intros H.
  destruct (Loop.terminations s) as [|t0 rest] eqn:E; [discriminate|].
  destruct (forallb (fun t => isinstance t t0) rest) eqn:Ei; [|discriminate].
  destruct (forallb _ rest) eqn:Ep in H; [|discriminate].
  destruct (forallb _ rest) eqn:El in H; [|discriminate].
  simpl in H.
  destruct (link t0) as [l|] eqn:Elink.
  - destruct (remote_terminations_of topo (t0 :: rest) t0 l) as [r|] eqn:Er; [|discriminate].
    injection H as <- <-.
    exists t0, rest, l. split; [reflexivity|]. split; [exact Elink|].
    split; [exact Er|]. split; [exact Ei|].
    destruct (bool_decide (status l <> STATUS_CONNECTED));
      simpl; rewrite E, <- !app_assoc; simpl; repeat split; reflexivity.
  - destruct (bool_decide _) in H; discriminate.
Qed.

Lemma cross_link_Stop (topo : Topology) (s : Loop.State) (st : Loop.Step) :
  cross_link topo s = Stop st ->
  (exists e, st = Loop.Throw e)
  \/ (st = Loop.ReturnNone /\ Loop.path s = [])
  \/ (Loop.path s <> [] /\
      st = Loop.Break
             (Loop.set_path
                (Loop.path s ++ [map object_to_path_node (Loop.terminations s)]) s)).
Proof.
  unfold cross_link. intros H.
  destruct (Loop.terminations s) as [|t0 rest] eqn:E.
  { left. injection H as <-. eauto. }
  destruct (forallb (fun t => isinstance t t0) rest) eqn:Ei;
    [|left; injection H as <-; eauto].
  destruct (forallb _ rest) eqn:Ep in H; [|left; injection H as <-; eauto].
  destruct (forallb _ rest) eqn:El in H; [|left; injection H as <-; eauto].
  simpl in H.
  destruct (link t0) as [l|] eqn:Elink.
  - destruct (remote_terminations_of topo (t0 :: rest) t0 l) as [r|] eqn:Er; [discriminate|].
    left. injection H as <-. eauto.
  - right. cbv zeta in H. unfold Loop.set_path in H. cbn [Loop.path] in H.
    case_bool_decide as Eb; rewrite length_app in Eb; simpl in Eb;
      injection H as <-.
    + left. split; [reflexivity|]. destruct (Loop.path s); [reflexivity|simpl in Eb; lia].
    + right. split; [intros Ep'; rewrite Ep' in Eb; simpl in Eb; lia|].
      unfold Loop.set_path. rewrite E. reflexivity.
Qed.

Lemma next_hop_Continue (topo : Topology) (s s' : Loop.State) remote :
  next_hop topo s remote = Loop.Continue s' ->
  remote <> [] /\ Loop.path s' = Loop.path s /\
  Loop.is_complete s' = Loop.is_complete s /\
  Loop.is_active s' = Loop.is_active s /\
  Loop.is_split s' = Loop.is_split s.
Proof.
  unfold next_hop. intros H. step_cases H;
    injection H as <-; repeat split; try discriminate; reflexivity.
Qed.

Lemma next_hop_Break (topo : Topology) (s s' : Loop.State) remote :
  next_hop topo s remote = Loop.Break s' ->
  remote <> [] /\ Loop.is_active s' = Loop.is_active s /\
  (Loop.path s' = Loop.path s
   \/ exists a b, circuit_end a b = true /\ Loop.path s' = Loop.path s ++ [a; b]).
Proof.
  unfold next_hop. intros H. step_cases H;
    injection H as <-; (split; [discriminate|]); (split; [reflexivity|]);
    first [ left; reflexivity
          | right; eexists _, _; split; [|reflexivity]; reflexivity ].
Qed.

(** ** The shape of a traced path *)

Lemma list_ind3 {A} (P : list A -> Prop) :
  P [] -> (forall a, P [a]) -> (forall a b, P [a; b]) ->
  (forall a b c l, P l -> P (a :: b :: c :: l)) ->
  forall l, P l.
Proof.
  intros H0 H1 H2 H3. fix IH 1.
  intros [|a [|b [|c l]]]; [exact H0|apply H1|apply H2|].
  apply H3, IH.
Qed.

Lemma segments_app (p q : list (list Node)) :
  segments p = true -> segments q = true -> segments (p ++ q) = true.
Proof.
  induction p as [|a|a b|a b c l IH] using list_ind3; simpl; intros Hp Hq;
    try discriminate; [exact Hq|].
  apply andb_true_iff in Hp as [Hp Hl]. rewrite Hp. simpl. auto.
Qed.

Lemma segments_segmented_app (p q : list (list Node)) :
  segments p = true -> segmented q = true -> segmented (p ++ q) = true.
Proof.
  induction p as [|a|a b|a b c l IH] using list_ind3; simpl; intros Hp Hq;
    try discriminate; [exact Hq|].
  apply andb_true_iff in Hp as [Hp Hl]. rewrite Hp. simpl. auto.
Qed.

Lemma segments_segmented (p : list (list Node)) :
  segments p = true -> segmented p = true.
Proof.
  intros H. rewrite <- (app_nil_r p). now apply segments_segmented_app.
Qed.

Lemma is_termination_node_object (t : Termination) :
  is_termination_node (object_to_path_node t) = true.
Proof. destruct t as [[] ?| | |]; reflexivity. Qed.

Lemma termination_group_map (ts : list Termination) :
  ts <> [] -> termination_group (map object_to_path_node ts) = true.
Proof.
  destruct ts as [|t ts]; [congruence|]. intros _.
  unfold termination_group. cbn [map]. change (?a :: map ?f ?l) with (map f (t :: l)).
  apply forallb_forall.
  intros n Hn. apply in_map_iff in Hn as (t' & <- & _).
  apply is_termination_node_object.
Qed.

Lemma link_group_link (l : Link) : link_group [link_to_path_node l] = true.
Proof. destruct l; reflexivity. Qed.

Lemma segment_one (near remote : list Termination) (l : Link) :
  near <> [] -> remote <> [] ->
  segments [map object_to_path_node near; [link_to_path_node l];
            map object_to_path_node remote] = true.
Proof.
  intros Hn Hr. cbn [segments].
  rewrite !termination_group_map, link_group_link by assumption. reflexivity.
Qed.

Lemma loop_body_shape (topo : Topology) (s : Loop.State) :
  segments (Loop.path s) = true ->
  Loop.terminations s <> [] ->
  match loop_body topo s with
  | Loop.Continue s' => segments (Loop.path s') = true
  | Loop.Break s' => segmented (Loop.path s') = true
  | _ => True
  end.
Proof.
  intros Hs Hne. unfold loop_body.
  destruct (cross_link topo s) as [s1 remote|st] eqn:Ec.
  - apply cross_link_Far in Ec as (t0 & rest & l & Et & _ & _ & _ & _ & Ep & _).
    destruct (next_hop topo s1 remote) as [s'|s'| |] eqn:En; [| |exact I|exact I].
    + apply next_hop_Continue in En as (Hr & -> & _). rewrite Ep.
      apply segments_app; [exact Hs|]. now apply segment_one.
    + apply next_hop_Break in En as (Hr & _ & [-> | (a & b & Hab & ->)]); rewrite Ep.
      * apply segments_segmented, segments_app; [exact Hs|]. now apply segment_one.
      * rewrite <- app_assoc. apply segments_segmented_app; [exact Hs|].
        cbn [app segmented].
        rewrite !termination_group_map, link_group_link by (assumption || discriminate).
        exact Hab.
  - apply cross_link_Stop in Ec as [[e ->] | [[-> _] | [_ ->]]]; try exact I.
    cbn [Loop.path Loop.set_path].
    apply segments_segmented_app; [exact Hs|].
    cbn [segmented]. now apply termination_group_map.
Qed.

Lemma while_loop_shape (topo : Topology) (fuel : nat) (s : Loop.State) (cp : CablePath) :
  segments (Loop.path s) = true ->
  while_loop fuel topo s = Some (Ok (Some cp)) ->
  segmented (path cp) = true.
Proof.
  revert s. induction fuel as [|fuel IH]; intros s Hs H; [discriminate|].
  simpl in H. destruct (Loop.terminations s) as [|t0 rest] eqn:Et.
  - injection H as <-. now apply segments_segmented.
  - pose proof (loop_body_shape topo s Hs) as Hb. rewrite Et in Hb.
    specialize (Hb ltac:(discriminate)).
    destruct (loop_body topo s) as [s'|s'| |e]; try discriminate.
    + now apply (IH s').
    + injection H as <-. exact Hb.
Qed.

Lemma circuit_end_no_link (a b : list Node) :
  circuit_end a b = true ->
  termination_group a = true /\ existsb is_link_node b = false.
Proof.
  destruct a as [|[[] ?] [|]]; try discriminate;
    destruct b as [|[[] ?] [|]]; try discriminate; split; reflexivity.
Qed.

Lemma termination_group_no_link (g : list Node) :
  termination_group g = true -> existsb is_link_node g = false.
Proof.
  destruct g as [|n g]; [discriminate|]. unfold termination_group.
  generalize (n :: g). clear. intros g H.
  induction g as [|n g IH]; [reflexivity|]. simpl in *.
  apply andb_true_iff in H as [Hn Hg]. rewrite (IH Hg), orb_false_r.
  destruct n as [[] ?]; try discriminate; reflexivity.
Qed.

Lemma segmented_links (p : list (list Node)) :
  segmented p = true ->
  forall g, In g p -> existsb is_link_node g = true -> link_group g = true.
Proof.
  induction p as [|a|a b|a b c l IH] using list_ind3; cbn [segmented]; intros Hp g Hg Hl.
  - destruct Hg.
  - destruct Hg as [<-|[]]. rewrite termination_group_no_link in Hl by assumption.
    discriminate.
  - apply circuit_end_no_link in Hp as [Ha Hb].
    destruct Hg as [<-|[<-|[]]]; [|congruence].
    rewrite termination_group_no_link in Hl by assumption. discriminate.
  - apply andb_true_iff in Hp as [Hp Hrest].
    apply andb_true_iff in Hp as [Hp Hc]. apply andb_true_iff in Hp as [Ha Hb].
    destruct Hg as [<-|[<-|[<-|Hg]]]; [|exact Hb| |now apply IH].
    + rewrite termination_group_no_link in Hl by assumption. discriminate.
    + rewrite termination_group_no_link in Hl by assumption. discriminate.
Qed.

Lemma segmented_head (p : list (list Node)) (g : list Node) :
  segmented p = true -> head p = Some g -> termination_group g = true.
Proof.
  destruct p as [|a [|b [|c l]]]; cbn [segmented head]; intros Hp Hg;
    try discriminate; injection Hg as <-.
  - exact Hp.
  - now apply circuit_end_no_link in Hp as [Ha _].
  - apply andb_true_iff in Hp as [Hp _]. apply andb_true_iff in Hp as [Hp _].
    now apply andb_true_iff in Hp as [Ha _].
Qed.

(** ** C1: an active path need not be complete *)

(** C1.  The claim asks that [is_active] imply [is_complete].  On Interface
    A --c1-- front port F1 | rear port R1 with nothing plugged into R1, and
    c1 connected, the trace halts at R1 for lack of a link and the path it
    returns is active although it is not complete. *)
Theorem from_origin_active_incomplete :
  exists cp,
    from_origin 2 Sample.Open.topo [Sample.Open.ifA] = Some (Ok (Some cp))
    /\ path cp = [[(InterfaceModel, 1)]; [(CableModel, 1)]; [(FrontPortModel, 1)];
                  [(RearPortModel, 1)]]
    /\ is_active cp = true
    /\ is_complete cp = false.
Proof. eexists. split; [vm_compute; reflexivity|]. repeat split. Qed.

(** ** C2: hop-groups come in segments *)

(** C2, as stated, fails: the path traced from Interface A over c1 to a
    circuit termination whose other side is attached to a provider network
    does not alternate between termination and link hop-groups. *)
Lemma provider_path_does_not_alternate :
  exists cp,
    from_origin 2 Sample.Provider.topo [Sample.Provider.ifA] = Some (Ok (Some cp))
    /\ strictly_alternates (path cp) = false.
Proof. eexists. split; [vm_compute; reflexivity|reflexivity]. Qed.

(** C2, amended.  Every path [from_origin] returns is a sequence of segments
    (termination hop-group, hop-group of exactly one link, termination
    hop-group), closed by nothing, by one more termination hop-group, or by
    the paired circuit termination and its provider network or site; it
    starts with a termination hop-group, and every hop-group that holds a
    link holds exactly that one node. *)
Theorem from_origin_path_segmented (fuel : nat) (topo : Topology)
    (terminations : list Termination) (cp : CablePath) :
  from_origin fuel topo terminations = Some (Ok (Some cp)) ->
  segmented (path cp) = true
  /\ (forall g, head (path cp) = Some g -> termination_group g = true)
  /\ (forall g, In g (path cp) -> existsb is_link_node g = true -> link_group g = true).
Proof.
  intros H. apply while_loop_shape in H; [|reflexivity].
  split; [exact H|]. split.
  - intros g. now apply segmented_head.
  - now apply segmented_links.
Qed.

Lemma from_origin_path_segmented_witness :
  segmented
    [[(InterfaceModel, 1)]; [(CableModel, 1)]; [(CircuitTerminationModel, 1)];
     [(CircuitTerminationModel, 2)]; [(ProviderNetworkModel, 5)]] = true
  /\ (forall g,
        head [[(InterfaceModel, 1)]; [(CableModel, 1)]; [(CircuitTerminationModel, 1)];
              [(CircuitTerminationModel, 2)]; [(ProviderNetworkModel, 5)]] = Some g ->
        termination_group g = true)
  /\ (forall g,
        In g [[(InterfaceModel, 1)]; [(CableModel, 1)]; [(CircuitTerminationModel, 1)];
              [(CircuitTerminationModel, 2)]; [(ProviderNetworkModel, 5)]] ->
        existsb is_link_node g = true -> link_group g = true).
Proof.
  apply (from_origin_path_segmented 2 Sample.Provider.topo [Sample.Provider.ifA]
           (cls [[(InterfaceModel, 1)]; [(CableModel, 1)]; [(CircuitTerminationModel, 1)];
                 [(CircuitTerminationModel, 2)]; [(ProviderNetworkModel, 5)]]
              false true false)).
  vm_compute. reflexivity.
Defined.

(** ** C3: termination *)

Lemma cyclic_hop (p : list (list Node)) (st : list (list Z)) (a : bool) :
  exists p' st' a',
    loop_body Sample.Cyclic.topo
      {| Loop.terminations := [Sample.Cyclic.r1]; Loop.path := p;
         Loop.position_stack := st; Loop.is_complete := false;
         Loop.is_active := a; Loop.is_split := false |}
    = Loop.Continue
        {| Loop.terminations := [Sample.Cyclic.r1]; Loop.path := p';
           Loop.position_stack := st'; Loop.is_complete := false;
           Loop.is_active := a'; Loop.is_split := false |}.
Proof. eexists _, _, _. vm_compute. reflexivity. Qed.

Lemma cyclic_loop (fuel : nat) :
  forall p st a,
    while_loop fuel Sample.Cyclic.topo
      {| Loop.terminations := [Sample.Cyclic.r1]; Loop.path := p;
         Loop.position_stack := st; Loop.is_complete := false;
         Loop.is_active := a; Loop.is_split := false |} = None.
Proof.
  induction fuel as [|fuel IH]; intros p st a; [reflexivity|].
  destruct (cyclic_hop p st a) as (p' & st' & a' & E).
  erewrite while_loop_unfold by reflexivity. rewrite E. apply IH.
Qed.

(** C3, as stated, fails: the code has no hop-count ceiling.  On Interface A
    --c1-- front port F9 | rear port R1 --c2-- front port F1 of the same R1,
    no number of passes through the loop makes [from_origin] return or
    raise. *)
Lemma cyclic_trace_never_ends :
  ~ (exists fuel r,
       from_origin fuel Sample.Cyclic.topo [Sample.Cyclic.ifA] = Some r).
Proof.
  intros (fuel & r & H). destruct fuel as [|fuel]; [discriminate|].
  unfold from_origin in H. erewrite while_loop_unfold in H by reflexivity.
  assert (E : exists p st a,
             loop_body Sample.Cyclic.topo (initial [Sample.Cyclic.ifA])
             = Loop.Continue
                 {| Loop.terminations := [Sample.Cyclic.r1]; Loop.path := p;
                    Loop.position_stack := st; Loop.is_complete := false;
                    Loop.is_active := a; Loop.is_split := false |}).
  { eexists _, _, _. vm_compute. reflexivity. }
  destruct E as (p & st & a & E). rewrite E, cyclic_loop in H. discriminate.
Qed.

Lemma hops_shift (topo : Topology) (k : nat) (s s' s1 : Loop.State) :
  Loop.terminations s <> [] ->
  loop_body topo s = Loop.Continue s' ->
  hops topo k s' = Some s1 ->
  hops topo (S k) s = Some s1.
Proof.
  intros Hne Hb Hk. simpl. destruct (Loop.terminations s); [congruence|].
  now rewrite Hb.
Qed.

Lemma traverse_In {A B} (f : A -> Result B) (l : list A) :
  forall ys y, traverse f l = Ok ys -> In y ys -> exists x, In x l /\ f x = Ok y.
Proof.
  induction l as [|a l IH]; simpl; intros ys y H Hy.
  - injection H as <-. destruct Hy.
  - destruct (f a) as [b|] eqn:Ea; [|discriminate]. simpl in H.
    destruct (traverse f l) as [bs|] eqn:Et; [|discriminate]. simpl in H.
    injection H as <-. destruct Hy as [<-|Hy].
    + exists a. split; [now left|exact Ea].
    + destruct (IH bs y eq_refl Hy) as (x & Hx & Hfx). exists x. split; [now right|exact Hfx].
Qed.

Lemma rear_ports_behind (topo : Topology) b r p (remote : list Termination)
    (ids : list Z) :
  traverse get_rear_port_id (FrontPort b r p :: remote) = Ok ids ->
  Forall (behind topo (FrontPort b r p :: remote)) (RearPort_filter_pk_in topo ids).
Proof.
  intros Hids. apply Forall_forall. intros t' Ht. apply list_elem_of_In in Ht.
  unfold RearPort_filter_pk_in in Ht. apply filter_In in Ht as [Hrow Hf].
  apply andb_true_iff in Hf as [Hrear Hid].
  apply bool_decide_eq_true, list_elem_of_In in Hid.
  destruct (traverse_In _ _ _ _ Hids Hid) as (x & Hx & Hfx).
  split; [exact Hrow|]. split; [exact Hrear|].
  destruct x as [?|xb xr xp| |]; simpl in Hfx; try discriminate Hfx.
  injection Hfx as <-. now exists xb, xp.
Qed.

Lemma front_ports_behind (topo : Topology) b n (remote : list Termination)
    (ids ps : list Z) :
  incl ids (map pk (RearPort b n :: remote)) ->
  Forall (behind topo (RearPort b n :: remote)) (FrontPort_filter topo ids ps).
Proof.
  intros Hincl. apply Forall_forall. intros t' Ht. apply list_elem_of_In in Ht.
  unfold FrontPort_filter in Ht. apply filter_In in Ht as [Hrow Hf].
  split; [exact Hrow|].
  destruct t' as [?|fb fr fp| |]; simpl in Hf; try discriminate Hf.
  apply andb_true_iff in Hf as [Hid _].
  apply bool_decide_eq_true, list_elem_of_In in Hid.
  exists fb, fr, fp. split; [reflexivity|]. now apply Hincl.
Qed.

(** Whatever the state, a pass that continues does so with rows behind the
    far end it reached. *)
Lemma next_hop_behind (topo : Topology) (s s' : Loop.State)
    (remote : list Termination) :
  next_hop topo s remote = Loop.Continue s' ->
  Forall (behind topo remote) (Loop.terminations s').
Proof.
  unfold next_hop. intros H.
  destruct remote as [|[m b|b r p|b n|b c sd pn st cb] remote]; try discriminate H.
  - destruct (traverse get_rear_port_id _) as [ids|] eqn:Eids; [|discriminate H].
    pose proof (rear_ports_behind topo b r p remote ids Eids) as Hb.
    step_cases H; injection H as <-;
      cbn [Loop.terminations Loop.set_terminations Loop.set_position_stack];
      first [exact Hb | congruence].
  - step_cases H; injection H as <-;
      cbn [Loop.terminations Loop.set_terminations Loop.set_position_stack];
      apply front_ports_behind.
    + apply incl_refl.
    + intros x [<-|[]]. now left.
  - step_cases H; injection H as <-; cbn [Loop.terminations Loop.set_terminations].
    all: match goal with
         | E : CircuitTermination_first _ _ _ = Some _ |- _ =>
             apply find_some in E as [Hrow Hf]; simpl in Hf
         end.
    all: try discriminate Hf.
    all: apply andb_true_iff in Hf as [Hc Hs];
      apply bool_decide_eq_true in Hc, Hs; subst;
      constructor; [|constructor]; (split; [exact Hrow|]);
      eexists _, _, _, _; reflexivity.
Qed.

Lemma loop_body_hop (topo : Topology) (s s' : Loop.State) :
  loop_body topo s = Loop.Continue s' ->
  Forall (hop topo (Loop.terminations s)) (Loop.terminations s').
Proof.
  unfold loop_body. intros H.
  destruct (cross_link topo s) as [s1 remote|st] eqn:Ec.
  - pose proof (cross_link_Far _ _ _ _ Ec) as (t0 & rest & l & Et & Hl & Hr & _).
    apply next_hop_behind in H. rewrite Et.
    eapply Forall_impl; [exact H|]. intros t' Hb.
    exists t0, rest, l, remote.
    split; [reflexivity|]. split; [exact Hl|]. split; [exact Hr|exact Hb].
  - subst st. pose proof (cross_link_Stop _ _ _ Ec) as [[e He]|[[He _]|[_ He]]];
      discriminate He.
Qed.

Lemma while_loop_ranked (topo : Topology) (rank : Termination -> nat) :
  (forall t0 rest t',
      Forall (fun t => In t (termination_objects topo)) (t0 :: rest) ->
      hop topo (t0 :: rest) t' ->
      (rank t' < rank t0)%nat) ->
  forall fuel s,
    Forall (fun t => In t (termination_objects topo)) (Loop.terminations s) ->
    (head_rank rank (Loop.terminations s) < fuel)%nat ->
    exists r, while_loop fuel topo s = Some r.
Proof.
  intros Hdec fuel. induction fuel as [|fuel IH]; intros s Hrows Hlt; [lia|].
  simpl. destruct (Loop.terminations s) as [|t0 rest] eqn:Et; [eauto|].
  destruct (loop_body topo s) as [s'|s'| |e] eqn:Eb; eauto.
  pose proof (loop_body_hop _ _ _ Eb) as Hhop. rewrite Et in Hhop.
  apply IH.
  - eapply Forall_impl; [exact Hhop|].
    intros t' (? & ? & ? & ? & _ & _ & _ & Hrow & _). exact Hrow.
  - cbn [head_rank] in Hlt. destruct (Loop.terminations s') as [|t' rest'].
    + cbn [head_rank]. lia.
    + cbn [head_rank]. apply Forall_inv in Hhop.
      specialize (Hdec t0 rest t' Hrows Hhop). lia.
Qed.

(** C3, amended.  [from_origin] has no hop-count ceiling of its own; it
    terminates from origins that are rows of a topology whose hops are
    well-founded: if some rank of the terminations is lower at every row
    behind the far end of a link than at the head of the set the link was
    entered from, the trace ends within as many passes as the rank of the
    first origin, plus one. *)
Theorem from_origin_terminates (topo : Topology) (rank : Termination -> nat)
    (terminations : list Termination) :
  Forall (fun t => In t (termination_objects topo)) terminations ->
  (forall t0 rest t',
      Forall (fun t => In t (termination_objects topo)) (t0 :: rest) ->
      hop topo (t0 :: rest) t' ->
      (rank t' < rank t0)%nat) ->
  exists r, from_origin (S (head_rank rank terminations)) topo terminations = Some r.
Proof.
  intros Hrows Hdec. unfold from_origin.
  apply (while_loop_ranked topo rank Hdec); cbn [initial Loop.terminations];
    [exact Hrows|lia].
Qed.

Lemma from_origin_terminates_witness :
  exists r, from_origin 3 Sample.Open.topo [Sample.Open.ifA] = Some r.
Proof.
  apply (from_origin_terminates Sample.Open.topo
           (fun t => match t with Endpoint _ _ => 1 | _ => 0 end)%nat
           [Sample.Open.ifA]).
  - repeat constructor.
  - intros t0 rest t' Hrows (t0' & rest' & l & remote & Heq & Hl & Hrem & Hrow & Hb).
    injection Heq as <- <-. apply Forall_inv in Hrows.
    destruct Hrows as [<-|[<-|[<-|[<-|[]]]]]; try discriminate Hl.
    + injection Hl as <-. vm_compute in Hrem. injection Hrem as <-.
      destruct Hb as [Hrear _].
      destruct Hrow as [<-|[<-|[<-|[<-|[]]]]]; try discriminate Hrear.
      cbn. lia.
    + injection Hl as <-. vm_compute in Hrem. injection Hrem as <-. destruct Hb.
Defined.

(** ** Facts about every run from an origin set *)

Lemma loop_body_Continue (topo : Topology) (s s' : Loop.State) :
  loop_body topo s = Loop.Continue s' ->
  Loop.is_complete s' = Loop.is_complete s /\
  Loop.is_split s' = Loop.is_split s /\
  Loop.path s' <> [].
Proof.
  unfold loop_body. intros H.
  destruct (cross_link topo s) as [s1 remote|st] eqn:Ec.
  - apply cross_link_Far in Ec as (t0 & rest & l & _ & _ & _ & _ & _ & Ep & _ & Hc & Hs & _).
    apply next_hop_Continue in H as (_ & Hp & Hc' & _ & Hs').
    rewrite Hc', Hs', Hp, Ep, Hc, Hs. repeat split.
    intros E. apply app_eq_nil in E as [_ E]. discriminate.
  - apply cross_link_Stop in Ec as [[e ->] | [[-> _] | [_ ->]]]; discriminate.
Qed.

Lemma hops_flags (topo : Topology) (k : nat) :
  forall s s',
    hops topo k s = Some s' ->
    Loop.is_complete s' = Loop.is_complete s /\
    Loop.is_split s' = Loop.is_split s /\
    (k <> O -> Loop.path s' <> []).
Proof.
  induction k as [|k IH]; intros s s' H; simpl in H.
  - injection H as <-. repeat split. congruence.
  - destruct (Loop.terminations s); [discriminate|].
    destruct (loop_body topo s) as [s1| | |] eqn:Eb; try discriminate.
    apply loop_body_Continue in Eb as (Hc & Hs & Hp).
    destruct k as [|k].
    + simpl in H. injection H as <-. repeat split; auto.
    + apply IH in H as (Hc' & Hs' & Hp'). rewrite Hc', Hs', Hc, Hs. repeat split.
      intros _. apply Hp'. discriminate.
Qed.

Lemma from_origin_at (topo : Topology) (k : nat) (terminations : list Termination)
    (s : Loop.State) :
  hops topo k (initial terminations) = Some s ->
  from_origin (k + 1) topo terminations = while_loop 1 topo s.
Proof. intros H. unfold from_origin. now apply while_loop_hops. Qed.

Lemma from_origin_halts_at (topo : Topology) (k : nat) (terminations : list Termination)
    (s s' : Loop.State) :
  hops topo k (initial terminations) = Some s ->
  Loop.terminations s <> [] ->
  loop_body topo s = Loop.Break s' ->
  from_origin (k + 1) topo terminations = Some (Ok (Some (finish s'))).
Proof.
  intros Hk Hne Hb. rewrite (from_origin_at _ _ _ _ Hk). simpl.
  destruct (Loop.terminations s); [congruence|]. now rewrite Hb.
Qed.



(** ** C4: the position stack *)



(** ** C5: circuit terminations *)

Lemma CircuitTermination_first_Some (topo : Topology) (c : Z) (sd : TermSide)
    b' c' sd' pn' st' cb' :
  CircuitTermination_first topo c sd = Some (CircuitTermination b' c' sd' pn' st' cb') ->
  c' = c /\ sd' = sd.
Proof.
  unfold CircuitTermination_first. intros H. apply find_some in H as [_ H].
  apply andb_true_iff in H as [H1 H2].
  split; [now apply bool_decide_eq_true in H1|now apply bool_decide_eq_true in H2].
Qed.

(** C5.  When the far end of the link crossed in a run from an origin set is
    circuit terminations on one side, the termination on the opposite side
    of the first one's circuit is looked up: with none the trace ends
    there, not complete; with one attached to a provider network, or one
    with a site and no cable, it and that provider network or site are
    appended and the trace ends, not complete; otherwise the loop continues
    with that termination alone. *)
Theorem circuit_termination_hop (topo : Topology) (terminations : list Termination)
    (k : nat) (s s1 : Loop.State) b c side pn st cb (rest : list Termination) :
  hops topo k (initial terminations) = Some s ->
  cross_link topo s = Far s1 (CircuitTermination b c side pn st cb :: rest) ->
  all_term_side side rest = Ok true ->
  (CircuitTermination_first topo c (opposite_side side) = None ->
   exists cp,
     from_origin (k + 1) topo terminations = Some (Ok (Some cp))
     /\ is_complete cp = false /\ path cp = Loop.path s1)
  /\ (forall b' c' side' pn' st' cb',
        CircuitTermination_first topo c (opposite_side side)
        = Some (CircuitTermination b' c' side' (Some pn') st' cb') ->
        c' = c /\ side' = opposite_side side /\
        exists cp,
          from_origin (k + 1) topo terminations = Some (Ok (Some cp))
          /\ is_complete cp = false
          /\ path cp = Loop.path s1 ++ [[(CircuitTerminationModel, base_pk b')];
                                        [(ProviderNetworkModel, pn')]])
  /\ (forall b' c' side' st',
        CircuitTermination_first topo c (opposite_side side)
        = Some (CircuitTermination b' c' side' None (Some st') None) ->
        c' = c /\ side' = opposite_side side /\
        exists cp,
          from_origin (k + 1) topo terminations = Some (Ok (Some cp))
          /\ is_complete cp = false
          /\ path cp = Loop.path s1 ++ [[(CircuitTerminationModel, base_pk b')];
                                        [(SiteModel, st')]])
  /\ (forall b' c' side' st' cb',
        CircuitTermination_first topo c (opposite_side side)
        = Some (CircuitTermination b' c' side' None st' cb') ->
        st' = None \/ cb' <> None ->
        c' = c /\ side' = opposite_side side /\
        loop_body topo s =
          Loop.Continue
            (Loop.set_terminations [CircuitTermination b' c' side' None st' cb'] s1)).
Proof.
  intros Hk Hc Hall.
  assert (Hb : loop_body topo s =
               next_hop topo s1 (CircuitTermination b c side pn st cb :: rest)).
  { unfold loop_body. now rewrite Hc. }
  unfold next_hop in Hb. rewrite Hall in Hb. cbn [negb] in Hb.
  destruct (hops_flags _ _ _ _ Hk) as (Hcomplete & _).
  pose proof (cross_link_Far _ _ _ _ Hc) as (t0 & rest0 & l & Et & _ & _ & _ & _ & _ & _ & Hc1 & _).
  assert (Hne : Loop.terminations s <> []) by (rewrite Et; discriminate).
  assert (Hfalse : Loop.is_complete s1 = false) by (rewrite Hc1, Hcomplete; reflexivity).
  split; [|split; [|split]].
  - intros Hf. rewrite Hf in Hb. exists (finish s1).
    split; [apply from_origin_halts_at with s; [exact Hk|exact Hne|exact Hb]|].
    split; [exact Hfalse|reflexivity].
  - intros b' c' side' pn' st' cb' Hf. rewrite Hf in Hb.
    destruct (CircuitTermination_first_Some _ _ _ _ _ _ _ _ _ Hf) as [-> ->].
    split; [reflexivity|]. split; [reflexivity|].
    eexists. split; [apply from_origin_halts_at with s; [exact Hk|exact Hne|exact Hb]|].
    split; [exact Hfalse|reflexivity].
  - intros b' c' side' st' Hf. rewrite Hf in Hb.
    destruct (CircuitTermination_first_Some _ _ _ _ _ _ _ _ _ Hf) as [-> ->].
    split; [reflexivity|]. split; [reflexivity|].
    eexists. split; [apply from_origin_halts_at with s; [exact Hk|exact Hne|exact Hb]|].
    split; [exact Hfalse|reflexivity].
  - intros b' c' side' st' cb' Hf Hor. rewrite Hf in Hb.
    destruct (CircuitTermination_first_Some _ _ _ _ _ _ _ _ _ Hf) as [-> ->].
    split; [reflexivity|]. split; [reflexivity|].
    rewrite Hb. destruct Hor as [-> | Hcb]; [reflexivity|].
    destruct st', cb'; congruence.
Qed.

Lemma circuit_termination_hop_witness :
  exists cp,
    from_origin (0 + 1) Sample.Provider.topo [Sample.Provider.ifA] = Some (Ok (Some cp))
    /\ is_complete cp = false
    /\ path cp = Loop.path Sample.Provider.pass1_crossed
                 ++ [[(CircuitTerminationModel, 2)]; [(ProviderNetworkModel, 5)]].
Proof.
  assert (H1 : hops Sample.Provider.topo 0 (initial [Sample.Provider.ifA])
               = Some (initial [Sample.Provider.ifA])) by reflexivity.
  assert (H2 : cross_link Sample.Provider.topo (initial [Sample.Provider.ifA])
               = Far Sample.Provider.pass1_crossed [Sample.Provider.ctA])
    by (vm_compute; reflexivity).
  assert (H3 : all_term_side SideA [] = Ok true) by reflexivity.
  pose proof (circuit_termination_hop Sample.Provider.topo [Sample.Provider.ifA] 0
                _ _ _ _ _ _ _ _ _ H1 H2 H3) as (_ & Hpn & _).
  specialize (Hpn (Sample.on 2 (Circuit 7) None) 7 SideZ 5 None None eq_refl).
  exact (proj2 (proj2 Hpn)).
Defined.

(** ** C6: no link *)

Lemma forallb_Forall {A} (f : A -> bool) (P : A -> Prop) (l : list A) :
  (forall x, P x -> f x = true) -> Forall P l -> forallb f l = true.
Proof.
  intros Hf. induction 1 as [|x l Hx _ IH]; [reflexivity|].
  simpl. now rewrite (Hf x Hx), IH.
Qed.

Lemma cross_link_no_link (topo : Topology) (s : Loop.State) t0 rest :
  Loop.terminations s = t0 :: rest ->
  Forall (fun t => model_of t = model_of t0 /\ parent_object t = parent_object t0) rest ->
  Forall (fun t => link t = None) (t0 :: rest) ->
  cross_link topo s =
    Stop (if bool_decide (Loop.path s = [])
          then Loop.ReturnNone
          else Loop.Break
                 (Loop.set_path
                    (Loop.path s ++ [map object_to_path_node (t0 :: rest)]) s)).
Proof.
  intros Et Hgroup Hlink. unfold cross_link. rewrite Et.
  pose proof (Forall_inv Hlink) as H0. pose proof (Forall_inv_tail Hlink) as Hrest.
  rewrite (forallb_Forall (fun t => isinstance t t0) _ rest
             (fun t H => bool_decide_eq_true_2 _ (proj1 H)) Hgroup).
  rewrite (forallb_Forall (fun t => bool_decide (parent_object t = parent_object t0)) _ rest
             (fun t H => bool_decide_eq_true_2 _ (proj2 H)) Hgroup).
  cbn [negb]. rewrite H0.
  rewrite (forallb_Forall (fun t => link_eqb (link t) None) (fun t => link t = None) rest)
    by (assumption || (intros t ->; reflexivity)).
  cbn [negb Loop.path Loop.set_path]. rewrite length_app. cbn [length].
  destruct (Loop.path s) as [|g p].
  - reflexivity.
  - rewrite bool_decide_eq_false_2 by (simpl; lia).
    rewrite bool_decide_eq_false_2 by discriminate. reflexivity.
Qed.

(** C6.  A valid origin set (one model, one parent) none of whose
    terminations has a link makes [from_origin] return [None]; when the
    termination set of a later pass has no link, the trace ends there with
    that set recorded, and the path returned is not complete. *)
Theorem no_link_handling (topo : Topology) :
  (forall fuel t0 rest,
      Forall (fun t => model_of t = model_of t0 /\ parent_object t = parent_object t0) rest ->
      Forall (fun t => link t = None) (t0 :: rest) ->
      from_origin (S fuel) topo (t0 :: rest) = Some (Ok None))
  /\ (forall terminations k s t0 rest,
        hops topo k (initial terminations) = Some s ->
        k <> O ->
        Loop.terminations s = t0 :: rest ->
        Forall (fun t => model_of t = model_of t0 /\ parent_object t = parent_object t0)
          rest ->
        Forall (fun t => link t = None) (t0 :: rest) ->
        exists cp,
          from_origin (k + 1) topo terminations = Some (Ok (Some cp))
          /\ is_complete cp = false
          /\ path cp = Loop.path s ++ [map object_to_path_node (t0 :: rest)]).
Proof.
  split.
  - intros fuel t0 rest Hgroup Hlink. unfold from_origin.
    erewrite while_loop_unfold by reflexivity. unfold loop_body.
    rewrite (cross_link_no_link topo (initial (t0 :: rest)) t0 rest eq_refl Hgroup Hlink).
    reflexivity.
  - intros ts k s t0 rest Hk Hpos Et Hgroup Hlink.
    destruct (hops_flags _ _ _ _ Hk) as (Hcomplete & _ & Hpath).
    specialize (Hpath Hpos).
    eexists. split.
    + apply from_origin_halts_at with s; [exact Hk|rewrite Et; discriminate|].
      unfold loop_body. rewrite (cross_link_no_link topo s t0 rest Et Hgroup Hlink).
      rewrite bool_decide_eq_false_2 by exact Hpath. reflexivity.
    + split; [exact Hcomplete|reflexivity].
Qed.

Lemma no_link_handling_witness :
  from_origin 1 Sample.Open.topo [Sample.Open.ifC] = Some (Ok None)
  /\ exists cp,
       from_origin (1 + 1) Sample.Open.topo [Sample.Open.ifA] = Some (Ok (Some cp))
       /\ is_complete cp = false
       /\ path cp = [[(InterfaceModel, 1)]; [(CableModel, 1)]; [(FrontPortModel, 1)]]
                    ++ [[(RearPortModel, 1)]].
Proof.
  destruct (no_link_handling Sample.Open.topo) as [Hfirst Hlater].
  split.
  - apply (Hfirst O Sample.Open.ifC []); repeat constructor.
  - refine (Hlater [Sample.Open.ifA] 1%nat
              {| Loop.terminations := [Sample.Open.r1];
                 Loop.path := [[(InterfaceModel, 1)]; [(CableModel, 1)];
                               [(FrontPortModel, 1)]];
                 Loop.position_stack := []; Loop.is_complete := false;
                 Loop.is_active := true; Loop.is_split := false |}
              Sample.Open.r1 [] _ _ eq_refl _ _).
    + vm_compute. reflexivity.
    + discriminate.
    + constructor.
    + repeat constructor.
Defined.

(** ** C10: destinations of a path that is not complete *)

(** C10.  For a path that is not complete, whatever its hop-groups are,
    [destinations] is the empty list and [destination_type] is [None]; a
    destination is read off the last hop-group only when the path is
    complete. *)
Theorem destinations_only_when_complete (topo : Topology) (self : CablePath) :
  (is_complete self = false ->
   destinations topo self = Ok [] /\ destination_type self = Ok None)
  /\ (forall m,
        destination_type self = Ok (Some m) ->
        is_complete self = true
        /\ exists n g, last (path self) = Some (n :: g) /\ fst n = m)
  /\ (forall ds,
        destinations topo self = Ok ds -> ds <> [] -> _path_objects self = None ->
        is_complete self = true
        /\ exists g, last (path self) = Some g
                     /\ traverse (path_node_to_object topo) g = Ok ds).
Proof.
  unfold destinations, destination_type. split; [|split].
  - intros ->. split; reflexivity.
  - intros m H. destruct (is_complete self); [|discriminate]. split; [reflexivity|].
    cbn [negb] in H. destruct (last (path self)) as [[|n g]|]; try discriminate.
    injection H as <-. eauto.
  - intros ds H Hne Hcache. destruct (is_complete self); cbn [negb] in H.
    + split; [reflexivity|]. rewrite Hcache in H.
      destruct (last (path self)) as [g|]; [eauto|discriminate].
    + injection H as <-. congruence.
Qed.

Lemma destinations_only_when_complete_witness :
  destinations Sample.Open.topo (cls [[(InterfaceModel, 99)]] false true true) = Ok []
  /\ destination_type (cls [[(InterfaceModel, 99)]] false true true) = Ok None.
Proof.
  exact (proj1 (destinations_only_when_complete Sample.Open.topo
                  (cls [[(InterfaceModel, 99)]] false true true)) eq_refl).
Defined.

(** ** C9: total length *)

Lemma filter_map_NoDup {A B} (f : A -> B) (p : A -> bool) (l : list A) :
  List.NoDup (map f l) -> List.NoDup (map f (List.filter p l)).
Proof.
  induction l as [|a l IH]; simpl; intros H; [constructor|].
  apply List.NoDup_cons_iff in H as [Ha Hl]. destruct (p a); simpl; [|auto].
  apply List.NoDup_cons_iff. split; [|auto].
  rewrite in_map_iff in *.
  intros (x & Hx & Hin). apply Ha. exists x. split; [exact Hx|].
  apply filter_In in Hin. tauto.
Qed.

(** Where the claim holds: when no cable occurs twice among the nodes of
    the path (and cable keys are unique in their table), [is_definitive]
    says exactly that every cable of the path has a row with a recorded
    length. *)
Lemma get_total_length_definitive (topo : Topology) (ids : list Z) :
  List.NoDup ids ->
  List.NoDup (map cable_pk (cable_objects topo)) ->
  snd (total_length_of topo ids) = true <->
  forall id, In id ids ->
             exists c, In c (cable_objects topo) /\ cable_pk c = id /\ has_length c = true.
Proof.
  intros Hids Hpks. unfold total_length_of. cbn [snd].
  set (cables := List.filter _ (cable_objects topo)).
  assert (Hnd : List.NoDup (map cable_pk cables)).
  { apply filter_map_NoDup. exact Hpks. }
  assert (Hincl : incl (map cable_pk cables) ids).
  { intros id Hid. apply in_map_iff in Hid as (c & <- & Hc).
    apply filter_In in Hc as [_ Hc]. apply andb_true_iff in Hc as [Hc _].
    apply bool_decide_eq_true in Hc. now apply list_elem_of_In. }
  rewrite bool_decide_eq_true. rewrite <- (length_map cable_pk cables). split.
  - intros Hlen id Hid.
    assert (Hin : In id (map cable_pk cables)).
    { apply (@NoDup_length_incl _ (map cable_pk cables) ids Hnd); [lia|exact Hincl|exact Hid]. }
    apply in_map_iff in Hin as (c & Hc & Hin). apply filter_In in Hin as [Hin Hp].
    apply andb_true_iff in Hp as [_ Hp]. eauto.
  - intros Hall. apply Nat.le_antisymm.
    + apply NoDup_incl_length; assumption.
    + apply NoDup_incl_length; [exact Hids|].
      intros id Hid. destruct (Hall id Hid) as (c & Hc & <- & Hl).
      apply in_map. apply filter_In. split; [exact Hc|].
      apply andb_true_iff. split; [|exact Hl].
      apply bool_decide_eq_true. now apply list_elem_of_In.
Qed.

(** C9.  The claim asks that [is_definitive] be true when every cable of
    the path has a recorded length.  The path traced from Interface A on
    the loopback topology crosses the trunk c2 twice; once saved, its cable
    ids are 1, 2, 3, 2, 4, every cable has a length, and yet
    [get_total_length] answers that the total is not definitive, counting
    c2 once in the total. *)
Theorem total_length_of_loopback_path :
  exists cp db' cp',
    from_origin 5 Sample.Loopback.topo [Sample.Loopback.ifA] = Some (Ok (Some cp))
    /\ save Sample.Loopback.db cp = Ok (db', cp')
    /\ get_cable_ids cp' = Ok [1; 2; 3; 2; 4]
    /\ Forall (fun c => has_length c = true) (cable_objects Sample.Loopback.topo)
    /\ get_total_length Sample.Loopback.topo cp' = Ok (Some 275000, false).
Proof.
  eexists _, _, _.
  split; [vm_compute; reflexivity|].
  split; [vm_compute; reflexivity|].
  split; [vm_compute; reflexivity|].
  split; [repeat constructor|].
  vm_compute. reflexivity.
Qed.

(** ** Decoding the origin nodes *)

Lemma get_object_key (topo : Topology) (n : Node) (t : Termination) :
  get_object topo n = Some t -> object_to_path_node t = n.
Proof.
  unfold get_object. intros H. apply find_some in H as [_ H].
  now apply bool_decide_eq_true in H.
Qed.

Lemma get_object_In (topo : Topology) (n : Node) (t : Termination) :
  get_object topo n = Some t -> In t (termination_objects topo).
Proof. unfold get_object. intros H. now apply find_some in H as [H _]. Qed.

Lemma traverse_decode_In (topo : Topology) (g : list Node) :
  forall os,
    traverse (path_node_to_object topo) g = Ok os ->
    Forall (fun o => In o (termination_objects topo)) os.
Proof.
  induction g as [|n g IH]; simpl; intros os H.
  - injection H as <-. constructor.
  - unfold path_node_to_object in H at 1.
    destruct (get_object topo n) as [t|] eqn:E; [|discriminate]. simpl in H.
    destruct (traverse _ g) as [os'|] eqn:Et; [|discriminate]. simpl in H.
    injection H as <-. constructor; [now apply get_object_In in E|now apply IH].
Qed.

Lemma traverse_decode_encode (topo : Topology) (g : list Node) :
  forall os,
    traverse (path_node_to_object topo) g = Ok os ->
    traverse (path_node_to_object topo) (map object_to_path_node os) = Ok os.
Proof.
  induction g as [|n g IH]; simpl; intros os H.
  - injection H as <-. reflexivity.
  - unfold path_node_to_object in H at 1.
    destruct (get_object topo n) as [t|] eqn:E; [|discriminate]. simpl in H.
    destruct (traverse _ g) as [os'|] eqn:Et; [|discriminate]. simpl in H.
    injection H as <-. simpl. unfold path_node_to_object at 1.
    rewrite (get_object_key _ _ _ E), E. simpl. now rewrite (IH os').
Qed.

(** ** The first hop-group of a traced path *)

Lemma loop_body_path (topo : Topology) (s s' : Loop.State) :
  loop_body topo s = Loop.Continue s' \/ loop_body topo s = Loop.Break s' ->
  exists ext,
    Loop.path s' = Loop.path s ++ map object_to_path_node (Loop.terminations s) :: ext.
Proof.
  unfold loop_body. intros H.
  destruct (cross_link topo s) as [s1 remote|st] eqn:Ec.
  - apply cross_link_Far in Ec as (t0 & rest & l & Et & _ & _ & _ & _ & Ep & _).
    rewrite Et. destruct H as [H|H].
    + apply next_hop_Continue in H as (_ & -> & _). rewrite Ep. eauto.
    + apply next_hop_Break in H as (_ & _ & [-> | (a & b & _ & ->)]); rewrite Ep.
      * eauto.
      * rewrite <- app_assoc. simpl. eauto.
  - apply cross_link_Stop in Ec as [[e ->] | [[-> _] | [_ ->]]];
      destruct H as [H|H]; try discriminate H.
    injection H as <-. simpl. eauto.
Qed.

Lemma while_loop_path (topo : Topology) (fuel : nat) :
  forall s cp,
    while_loop fuel topo s = Some (Ok (Some cp)) ->
    exists ext,
      path cp = Loop.path s ++ ext
      /\ (Loop.terminations s <> [] ->
          head ext = Some (map object_to_path_node (Loop.terminations s))).
Proof.
  induction fuel as [|fuel IH]; intros s cp H; [discriminate|].
  simpl in H. destruct (Loop.terminations s) as [|t0 rest] eqn:Et.
  - injection H as <-. exists []. rewrite app_nil_r. split; [reflexivity|congruence].
  - destruct (loop_body topo s) as [s'|s'| |e] eqn:Eb; try discriminate.
    + destruct (loop_body_path topo s s' (or_introl Eb)) as (ext1 & Hp).
      apply IH in H as (ext2 & Hcp & _). rewrite Hcp, Hp, Et, <- app_assoc.
      eexists. split; [reflexivity|]. reflexivity.
    + destruct (loop_body_path topo s s' (or_intror Eb)) as (ext1 & Hp).
      injection H as <-. cbn [finish cls path]. rewrite Hp, Et.
      eexists. split; [reflexivity|]. reflexivity.
Qed.

Lemma from_origin_head (topo : Topology) (fuel : nat) (terminations : list Termination)
    (cp : CablePath) :
  from_origin fuel topo terminations = Some (Ok (Some cp)) ->
  terminations <> [] ->
  head (path cp) = Some (map object_to_path_node terminations).
Proof.
  intros H Hne. apply while_loop_path in H as (ext & -> & Hh). now apply Hh.
Qed.

Lemma from_origin_same_model (topo : Topology) (fuel : nat) t0 rest r :
  from_origin fuel topo (t0 :: rest) = Some (Ok r) ->
  Forall (fun t => model_of t = model_of t0) rest.
Proof.
  destruct fuel as [|fuel]; [discriminate|]. unfold from_origin.
  erewrite while_loop_unfold by reflexivity. unfold loop_body, cross_link.
  cbn [initial Loop.terminations].
  destruct (forallb (fun t => isinstance t t0) rest) eqn:Ei; [|discriminate].
  intros _. apply Forall_forall. intros t Ht.
  rewrite forallb_forall in Ei. apply list_elem_of_In in Ht.
  specialize (Ei t Ht). now apply bool_decide_eq_true in Ei.
Qed.

(** ** The back-reference column *)

Lemma lookup_update_path (rows : list Termination) (k : Z) (col : gmap Node Z) (n : Node) :
  update_path rows k col !! n =
    if bool_decide (n ∈ map object_to_path_node rows) then Some k else col !! n.
Proof.
  induction rows as [|t rows IH]; simpl.
  - reflexivity.
  - destruct (decide (object_to_path_node t = n)) as [<-|Hne].
    + rewrite lookup_insert_eq.
      rewrite bool_decide_eq_true_2 by (apply elem_of_cons; now left). reflexivity.
    + rewrite lookup_insert_ne by exact Hne. rewrite IH.
      apply (f_equal (fun b : bool => if b then Some k else col !! n)).
      apply bool_decide_ext. rewrite elem_of_cons. intuition congruence.
Qed.

Lemma update_path_idempotent (rows : list Termination) (k : Z) (col : gmap Node Z) :
  update_path rows k (update_path rows k col) = update_path rows k col.
Proof.
  apply map_eq. intros n. rewrite !lookup_update_path.
  destruct (bool_decide _); reflexivity.
Qed.

Lemma lookup_clear_path (k : Z) (col : gmap Node Z) (n : Node) :
  clear_path k col !! n <> Some k.
Proof.
  unfold clear_path. intros H. apply map_lookup_filter_Some in H as [_ H].
  now apply H.
Qed.

(** ** C7: retracing *)

Lemma origins_retraced (topo : Topology) (self : CablePath) (os : list Termination)
    (key : option Z) (p : list (list Node)) (a c sp : bool) (ns : option (list Node)) :
  origins topo self = Ok os ->
  head p = Some (map object_to_path_node os) ->
  origins topo
    {| cp_pk := key; path := p; is_active := a; is_complete := c; is_split := sp;
       _nodes := ns; _path_objects := _path_objects self |} = Ok os.
Proof.
  unfold origins. cbn [_path_objects path]. intros H Hp.
  destruct (_path_objects self) as [po|]; [exact H|].
  destruct p as [|g p]; [discriminate|]. injection Hp as ->.
  destruct (path self) as [|g0 p0]; [discriminate|].
  now apply traverse_decode_encode with g0.
Qed.

(** C7.  For a stored path (it has a key) whose origin set decodes to a
    non-empty list of terminations of a model that carries the
    back-reference: if the trace from the origins produces a path, [retrace]
    rewrites the row under the same key with exactly the new path, its
    flattened nodes and its flags, and a second [retrace] on the result
    changes neither the database nor the instance; if the trace yields
    [None], the row is deleted. *)
Theorem retrace_replaces_in_place (fuel : nat) (db : Database) (self : CablePath)
    (k : Z) (o0 : Termination) (rest : list Termination) :
  cp_pk self = Some k ->
  origins (topology db) self = Ok (o0 :: rest) ->
  has_path_field (model_of o0) = true ->
  (forall new,
      from_origin fuel (topology db) (o0 :: rest) = Some (Ok (Some new)) ->
      exists db' self',
        retrace fuel db self = Some (Ok (db', self'))
        /\ cp_pk self' = Some k
        /\ path self' = path new
        /\ is_active self' = is_active new
        /\ is_complete self' = is_complete new
        /\ is_split self' = is_split new
        /\ cable_paths db' !! k
           = Some {| row_path := path new; row_is_active := is_active new;
                     row_is_complete := is_complete new; row_is_split := is_split new;
                     row_nodes := flatten_path (path new) |}
        /\ retrace fuel db' self' = Some (Ok (db', self')))
  /\ (from_origin fuel (topology db) (o0 :: rest) = Some (Ok None) ->
      exists db' self',
        retrace fuel db self = Some (Ok (db', self'))
        /\ cable_paths db' !! k = None
        /\ cp_pk self' = None).
Proof.
  intros Hk Ho Hfield. split.
  - intros new Hnew.
    pose proof (from_origin_head _ _ _ _ Hnew ltac:(discriminate)) as Hhead.
    assert (Hsaved : forall ns,
               origins (topology db)
                 {| cp_pk := Some k; path := path new; is_active := is_active new;
                    is_complete := is_complete new; is_split := is_split new;
                    _nodes := ns; _path_objects := _path_objects self |}
               = Ok (o0 :: rest)).
    { intros ns. now apply origins_retraced. }
    eexists _, _. split.
    { unfold retrace. rewrite Ho, Hnew. unfold save.
      cbn [cp_pk path is_active is_complete is_split _nodes _path_objects topology].
      rewrite Hk. cbn [default]. rewrite Hsaved. cbn [bind]. rewrite Hfield.
      cbn [negb]. reflexivity. }
    cbn [cp_pk path is_active is_complete is_split cable_paths].
    split; [reflexivity|]. split; [reflexivity|]. split; [reflexivity|].
    split; [reflexivity|]. split; [reflexivity|].
    split; [apply lookup_insert_eq|].
    unfold retrace. cbn [topology]. rewrite Hsaved, Hnew. unfold save.
    cbn [cp_pk path is_active is_complete is_split _nodes _path_objects topology
         cable_paths _path next_pk default].
    rewrite Hsaved. cbn [bind]. rewrite Hfield. cbn [negb].
    rewrite insert_insert_eq, update_path_idempotent. reflexivity.
  - intros Hnone. eexists _, _. split.
    { unfold retrace. rewrite Ho, Hnone. unfold delete. rewrite Hk. reflexivity. }
    cbn [cable_paths cp_pk]. split; [apply lookup_delete_eq|reflexivity].
Qed.

Lemma retrace_replaces_in_place_witness :
  (exists db' self',
      retrace 5 Sample.Loopback.db Sample.Loopback.stale = Some (Ok (db', self'))
      /\ cp_pk self' = Some 1
      /\ length (path self') = 15%nat
      /\ retrace 5 db' self' = Some (Ok (db', self')))
  /\ (exists db' self',
        retrace 5 Sample.Open.db Sample.Open.unlinked = Some (Ok (db', self'))
        /\ cable_paths db' !! 4 = None).
Proof.
  split.
  - destruct (retrace_replaces_in_place 5 Sample.Loopback.db Sample.Loopback.stale 1
                Sample.Loopback.ifA [] eq_refl eq_refl eq_refl) as [H _].
    edestruct H as (db' & self' & H1 & H2 & H3 & _ & _ & _ & _ & H8).
    { vm_compute. reflexivity. }
    exists db', self'. rewrite H3. repeat split; assumption.
  - destruct (retrace_replaces_in_place 5 Sample.Open.db Sample.Open.unlinked 4
                Sample.Open.ifC [] eq_refl eq_refl eq_refl) as [_ H].
    destruct H as (db' & self' & H1 & H2 & _); [vm_compute; reflexivity|].
    exists db', self'. split; assumption.
Defined.

(** ** C8: the back-reference of the origins *)

Lemma origin_row_updated (topo : Topology) (o0 o : Termination) (os : list Termination) :
  In o os ->
  model_of o = model_of o0 ->
  In o (termination_objects topo) ->
  object_to_path_node o
  ∈ map object_to_path_node (filter_pk_in topo (model_of o0) (map pk os)).
Proof.
  intros Hin Hm Ht. apply list_elem_of_In, in_map. unfold filter_pk_in.
  apply filter_In. split; [exact Ht|]. apply andb_true_iff. split.
  - now apply bool_decide_eq_true.
  - apply bool_decide_eq_true, list_elem_of_In. now apply in_map.
Qed.

(** C8.  [save] makes every origin of the saved path that is a row of the
    first origin's table refer back to the path's key; so does a [retrace]
    that produces a path; and after a [retrace] that finds the origin
    unlinked and deletes the path, no termination refers back to its key. *)
Theorem back_reference_maintenance (db : Database) (self : CablePath) :
  (forall db' self',
      save db self = Ok (db', self') ->
      exists k o0 os,
        cp_pk self' = Some k
        /\ origins (topology db) self' = Ok (o0 :: os)
        /\ forall o,
             In o (o0 :: os) -> model_of o = model_of o0 ->
             In o (termination_objects (topology db)) ->
             _path db' !! object_to_path_node o = Some k)
  /\ (forall fuel os new db' self',
        origins (topology db) self = Ok os ->
        from_origin fuel (topology db) os = Some (Ok (Some new)) ->
        retrace fuel db self = Some (Ok (db', self')) ->
        exists k,
          cp_pk self' = Some k
          /\ forall o,
               In o os -> In o (termination_objects (topology db)) ->
               _path db' !! object_to_path_node o = Some k)
  /\ (forall fuel os k db' self',
        cp_pk self = Some k ->
        origins (topology db) self = Ok os ->
        from_origin fuel (topology db) os = Some (Ok None) ->
        retrace fuel db self = Some (Ok (db', self')) ->
        cable_paths db' !! k = None
        /\ forall n, _path db' !! n <> Some k).
Proof.
  split; [|split].
  - intros db' self' H. unfold save in H.
    destruct (origins (topology db) _) as [[|o0 os]|] eqn:Eo; try discriminate H.
    cbn [bind] in H.
    destruct (has_path_field (model_of o0)); [|discriminate H].
    cbn [negb] in H. injection H as <- <-.
    exists (default (next_pk db) (cp_pk self)), o0, os.
    split; [reflexivity|]. split; [exact Eo|].
    intros o Hin Hm Ht. cbn [_path]. rewrite lookup_update_path.
    rewrite bool_decide_eq_true_2; [reflexivity|].
    now apply (origin_row_updated _ o0 o (o0 :: os)).
  - intros fuel os new db' self' Ho Hnew H. unfold retrace in H. rewrite Ho, Hnew in H.
    destruct os as [|o0 os].
    { exfalso. unfold from_origin in Hnew. destruct fuel; [discriminate|].
      simpl in Hnew. injection Hnew as <-. unfold save in H.
      cbn [cp_pk path is_active is_complete is_split _nodes _path_objects
           finish cls initial Loop.path] in H.
      unfold origins in H, Ho. cbn [_path_objects path] in H.
      destruct (_path_objects self) as [[|g po]|]; try discriminate.
      injection Ho as ->. discriminate. }
    pose proof (from_origin_same_model _ _ _ _ _ Hnew) as Hmodel.
    pose proof (from_origin_head _ _ _ _ Hnew ltac:(discriminate)) as Hhead.
    injection H as H. unfold save in H.
    cbn [cp_pk path is_active is_complete is_split _nodes _path_objects] in H.
    rewrite (origins_retraced _ _ _ _ _ _ _ _ _ Ho Hhead) in H. cbn [bind] in H.
    destruct (has_path_field (model_of o0)); [|discriminate H].
    cbn [negb] in H. injection H as <- <-. eexists. split; [reflexivity|].
    intros o Hin Ht. cbn [_path]. rewrite lookup_update_path.
    rewrite bool_decide_eq_true_2; [reflexivity|].
    apply (origin_row_updated _ o0 o (o0 :: os)); [exact Hin| |exact Ht].
    destruct Hin as [<-|Hin]; [reflexivity|].
    rewrite Forall_forall in Hmodel. apply Hmodel. now apply list_elem_of_In.
  - intros fuel os k db' self' Hk Ho Hnone H. unfold retrace in H.
    rewrite Ho, Hnone in H. unfold delete in H. rewrite Hk in H.
    injection H as <- <-. cbn [cable_paths _path].
    split; [apply lookup_delete_eq|]. intros n. apply lookup_clear_path.
Qed.

Lemma back_reference_maintenance_witness :
  (exists db' self',
      retrace 5 Sample.Loopback.db Sample.Loopback.stale = Some (Ok (db', self'))
      /\ _path db' !! (InterfaceModel, 1) = Some 1)
  /\ (exists db' self',
        retrace 5 Sample.Open.db Sample.Open.unlinked = Some (Ok (db', self'))
        /\ _path Sample.Open.db !! (InterfaceModel, 3) = Some 4
        /\ _path db' !! (InterfaceModel, 3) <> Some 4).
Proof.
  split.
  - destruct (retrace 5 Sample.Loopback.db Sample.Loopback.stale)
      as [[[db' self']|]|] eqn:E; try (vm_compute in E; discriminate E).
    exists db', self'. split; [reflexivity|].
    destruct (back_reference_maintenance Sample.Loopback.db Sample.Loopback.stale)
      as (_ & H & _).
    edestruct (H 5%nat [Sample.Loopback.ifA]) as (k & Hk & Hrefs);
      [reflexivity|vm_compute; reflexivity|exact E|].
    assert (k = 1) as ->.
    { vm_compute in E. injection E as _ <-. now injection Hk. }
    apply (Hrefs Sample.Loopback.ifA); [now left|now left].
  - destruct (retrace 5 Sample.Open.db Sample.Open.unlinked)
      as [[[db' self']|]|] eqn:E; try (vm_compute in E; discriminate E).
    exists db', self'. split; [reflexivity|]. split; [reflexivity|].
    destruct (back_reference_maintenance Sample.Open.db Sample.Open.unlinked)
      as (_ & _ & H).
    apply (H 5%nat [Sample.Open.ifC] 4 db' self' eq_refl eq_refl);
      [vm_compute; reflexivity|exact E].
Defined.

(** ** Links that are not connected *)

Lemma cross_link_inactive (topo : Topology) (s s1 : Loop.State) remote :
  cross_link topo s = Far s1 remote ->
  Loop.is_active s1 = true ->
  Loop.is_active s = true
  /\ exists t0 rest l,
       Loop.terminations s = t0 :: rest /\ link t0 = Some l
       /\ status l = STATUS_CONNECTED.
Proof.
  intros Hc Ha.
  apply cross_link_Far in Hc as (t0 & rest & l & Et & El & _ & _ & _ & _ & _ & _ & _ & Hact).
  rewrite Hact in Ha. case_bool_decide as Hs; [discriminate|].
  split; [exact Ha|]. exists t0, rest, l. split; [exact Et|]. split; [exact El|].
  destruct (decide (status l = STATUS_CONNECTED)) as [Hc|Hn]; [exact Hc|].
  now destruct Hs.
Qed.

Lemma loop_body_inactive (topo : Topology) (s s' : Loop.State) :
  loop_body topo s = Loop.Continue s' \/ loop_body topo s = Loop.Break s' ->
  Loop.is_active s = false -> Loop.is_active s' = false.
Proof.
  unfold loop_body. intros H Ha.
  destruct (cross_link topo s) as [s1 remote|st] eqn:Ec.
  - assert (Ha1 : Loop.is_active s1 = false).
    { destruct (Loop.is_active s1) eqn:E1; [|reflexivity].
      apply (cross_link_inactive _ _ _ _ Ec) in E1 as [E1 _]. congruence. }
    destruct H as [H|H].
    + apply next_hop_Continue in H as (_ & _ & _ & -> & _). exact Ha1.
    + apply next_hop_Break in H as (_ & -> & _). exact Ha1.
  - apply cross_link_Stop in Ec as [[e ->] | [[-> _] | [_ ->]]];
      destruct H as [H|H]; try discriminate H.
    injection H as <-. exact Ha.
Qed.

Lemma while_loop_inactive (topo : Topology) (fuel : nat) :
  forall s cp,
    Loop.is_active s = false ->
    while_loop fuel topo s = Some (Ok (Some cp)) ->
    is_active cp = false.
Proof.
  induction fuel as [|fuel IH]; intros s cp Ha H; [discriminate|].
  simpl in H. destruct (Loop.terminations s) as [|t0 rest].
  - injection H as <-. exact Ha.
  - destruct (loop_body topo s) as [s'|s'| |e] eqn:Eb; try discriminate.
    + apply (IH s'); [|exact H]. apply (loop_body_inactive topo s); auto.
    + injection H as <-. apply (loop_body_inactive topo s); auto.
Qed.

Lemma while_loop_short (topo : Topology) (k : nat) :
  forall fuel s0 s,
    hops topo k s0 = Some s -> (fuel <= k)%nat -> while_loop fuel topo s0 = None.
Proof.
  induction k as [|k IH]; intros fuel s0 s Hk Hle.
  - now replace fuel with O by lia.
  - destruct fuel as [|fuel]; [reflexivity|]. simpl in *.
    destruct (Loop.terminations s0); [discriminate|].
    destruct (loop_body topo s0) as [s'| | |]; try discriminate.
    apply (IH fuel s' s); [exact Hk|lia].
Qed.

(** X10.  The half of C1 that the code keeps: once a link that is not connected
    has been crossed, whatever path the trace returns is not active. *)
Lemma link_not_connected_inactive (topo : Topology) (terminations : list Termination)
    (k : nat) (s : Loop.State) t0 rest l :
  hops topo k (initial terminations) = Some s ->
  Loop.terminations s = t0 :: rest ->
  link t0 = Some l ->
  status l <> STATUS_CONNECTED ->
  forall fuel cp,
    from_origin fuel topo terminations = Some (Ok (Some cp)) ->
    is_active cp = false.
Proof.
  intros Hk Et El Hs fuel cp H.
  destruct (Nat.le_gt_cases fuel k) as [Hle|Hgt].
  { unfold from_origin in H. rewrite (while_loop_short _ _ _ _ _ Hk Hle) in H. discriminate. }
  replace fuel with (k + S (fuel - S k))%nat in H by lia.
  unfold from_origin in H. rewrite (while_loop_hops _ _ _ _ _ Hk) in H.
  erewrite while_loop_unfold in H by exact Et.
  assert (Hstep : forall s',
             loop_body topo s = Loop.Continue s' \/ loop_body topo s = Loop.Break s' ->
             Loop.is_active s' = false).
  { intros s' Hb. unfold loop_body in Hb.
    destruct (cross_link topo s) as [s1 remote|st] eqn:Ec.
    - assert (Ha1 : Loop.is_active s1 = false).
      { destruct (Loop.is_active s1) eqn:E1; [|reflexivity].
        apply (cross_link_inactive _ _ _ _ Ec) in E1
          as (_ & t0' & rest' & l' & Et' & El' & Hs').
        congruence. }
      destruct Hb as [Hb|Hb].
      + apply next_hop_Continue in Hb as (_ & _ & _ & -> & _). exact Ha1.
      + apply next_hop_Break in Hb as (_ & -> & _). exact Ha1.
    - exfalso. unfold cross_link in Ec. rewrite Et, El in Ec.
      repeat (match type of Ec with
              | context [if ?b then _ else _] => destruct b
              | context [match ?r with Ok _ => _ | Raise _ => _ end] => destruct r
              end);
        first [ discriminate Ec
              | injection Ec as <-; destruct Hb as [Hb|Hb]; discriminate Hb ]. }
  destruct (loop_body topo s) as [s'|s'| |e]; try discriminate.
  - apply (while_loop_inactive _ _ _ _ (Hstep s' (or_introl eq_refl)) H).
  - injection H as <-. apply (Hstep s' (or_intror eq_refl)).
Qed.

(** * Further properties *)

(** ** How a run ends *)

Lemma hops_invariant (topo : Topology) (P : Loop.State -> Prop) (k : nat) :
  forall s0 s,
    P s0 ->
    (forall s s', P s -> Loop.terminations s <> [] ->
                  loop_body topo s = Loop.Continue s' -> P s') ->
    hops topo k s0 = Some s -> P s.
Proof.
  induction k as [|k IH]; intros s0 s H0 Hstep Hk; simpl in Hk.
  - now injection Hk as <-.
  - destruct (Loop.terminations s0) as [|t0 rest] eqn:Et; [discriminate|].
    destruct (loop_body topo s0) as [s1| | |] eqn:Eb; try discriminate.
    apply (IH s1 s); [|exact Hstep|exact Hk].
    apply (Hstep s0); [exact H0|rewrite Et; discriminate|exact Eb].
Qed.

(** Whatever [while_loop] returns is decided at a state the run reaches:
    either its termination set is empty, or the loop body ends there. *)
Lemma while_loop_run (topo : Topology) (fuel : nat) :
  forall s0 r,
    while_loop fuel topo s0 = Some r ->
    exists k s,
      hops topo k s0 = Some s
      /\ ((Loop.terminations s = [] /\ r = Ok (Some (finish s)))
          \/ (Loop.terminations s <> []
              /\ match loop_body topo s with
                 | Loop.Continue _ => False
                 | Loop.Break s' => r = Ok (Some (finish s'))
                 | Loop.ReturnNone => r = Ok None
                 | Loop.Throw e => r = Raise e
                 end)).
Proof.
  induction fuel as [|fuel IH]; intros s0 r H; [discriminate|].
  simpl in H. destruct (Loop.terminations s0) as [|t0 rest] eqn:Et.
  - injection H as <-. exists O, s0. split; [reflexivity|]. left. now split.
  - destruct (loop_body topo s0) as [s1|s1| |e] eqn:Eb.
    + apply IH in H as (k & s & Hk & Hend). exists (S k), s. split; [|exact Hend].
      apply hops_shift with s1; [rewrite Et; discriminate|exact Eb|exact Hk].
    + injection H as <-. exists O, s0. split; [reflexivity|]. right.
      split; [rewrite Et; discriminate|]. now rewrite Eb.
    + injection H as <-. exists O, s0. split; [reflexivity|]. right.
      split; [rewrite Et; discriminate|]. now rewrite Eb.
    + injection H as <-. exists O, s0. split; [reflexivity|]. right.
      split; [rewrite Et; discriminate|]. now rewrite Eb.
Qed.

Lemma hops_segments (topo : Topology) (k : nat) (terminations : list Termination)
    (s : Loop.State) :
  hops topo k (initial terminations) = Some s -> segments (Loop.path s) = true.
Proof.
  apply (hops_invariant topo (fun s => segments (Loop.path s) = true)); [reflexivity|].
  intros s1 s2 Hs Hne Hb. pose proof (loop_body_shape topo s1 Hs Hne) as H.
  now rewrite Hb in H.
Qed.

Lemma next_hop_Break_cases (topo : Topology) (s s' : Loop.State) remote :
  next_hop topo s remote = Loop.Break s' ->
  (exists m b r, remote = Endpoint m b :: r /\ s' = Loop.set_is_complete true s)
  \/ (exists b n, remote = [RearPort b n] /\ n <> 1
                  /\ s' = Loop.set_is_split true s)
  \/ (exists b c sd pn st cb r,
        remote = CircuitTermination b c sd pn st cb :: r
        /\ Loop.is_complete s' = Loop.is_complete s
        /\ Loop.is_split s' = Loop.is_split s).
Proof.
  unfold next_hop. intros H. destruct remote as [|t r]; [discriminate|].
  destruct t as [m b|b rp pos|b n|b c sd pn st cb].
  - left. injection H as <-. eauto.
  - step_cases H.
  - right. left.
    destruct (bool_decide (1 < length (RearPort b n :: r))%nat) eqn:E1; [discriminate|].
    destruct (bool_decide (n = 1)) eqn:E2; [discriminate|]. cbn [orb] in H.
    apply bool_decide_eq_false in E1, E2.
    destruct r as [|t r]; [|simpl in E1; lia].
    destruct (Loop.position_stack s); [|discriminate].
    injection H as <-. eauto.
  - right. right. step_cases H; injection H as <-; eexists _, _, _, _, _, _, _;
      (split; [reflexivity|]); split; reflexivity.
Qed.

Lemma loop_body_Break_cases (topo : Topology) (s s' : Loop.State) :
  loop_body topo s = Loop.Break s' ->
  (Loop.path s <> []
   /\ s' = Loop.set_path
             (Loop.path s ++ [map object_to_path_node (Loop.terminations s)]) s)
  \/ (exists s1 remote,
        cross_link topo s = Far s1 remote /\ next_hop topo s1 remote = Loop.Break s').
Proof.
  unfold loop_body. intros H.
  destruct (cross_link topo s) as [s1 remote|st] eqn:Ec; [right; eauto|].
  left. subst st.
  apply cross_link_Stop in Ec as [[e He] | [[He _] | [Hp He]]]; try discriminate He.
  injection He as <-. now split.
Qed.

(** The far end of a link is made of rows of the termination tables. *)
Lemma remote_terminations_rows (topo : Topology) ts t0 l remote :
  remote_terminations_of topo ts t0 l = Ok remote ->
  Forall (fun t => get_object topo (object_to_path_node t) = Some t) remote.
Proof.
  unfold remote_terminations_of. destruct l as [c|w].
  - destruct (List.filter _ _) as [|ct0 cts]; [discriminate|].
    destruct (negb _); [discriminate|].
    generalize (List.filter
                  (fun ct => bool_decide (ct_cable ct = cable_pk c)
                             && bool_decide (cable_end ct = opposite_end (cable_end ct0)))
                  (cable_termination_objects topo)).
    intros rows. revert remote. induction rows as [|ct rows IH]; simpl; intros remote H.
    + injection H as <-. constructor.
    + unfold termination in H at 1.
      destruct (get_object topo _) as [t|] eqn:E; [|discriminate]. simpl in H.
      destruct (traverse (termination topo) rows) as [ts'|]; [|discriminate].
      simpl in H. injection H as <-. constructor; [|now apply IH].
      now rewrite (get_object_key _ _ _ E).
  - destruct (get_object topo (InterfaceModel, interface_a w)) as [a|] eqn:Ea;
      [|discriminate]. simpl.
    destruct (is_ topo a t0).
    + destruct (get_object topo (InterfaceModel, interface_b w)) as [b|] eqn:Eb;
        [|discriminate].
      intros H. injection H as <-. repeat constructor.
      now rewrite (get_object_key _ _ _ Eb).
    + intros H. injection H as <-. repeat constructor.
      now rewrite (get_object_key _ _ _ Ea).
Qed.

Lemma traverse_decode_rows (topo : Topology) (ts : list Termination) :
  Forall (fun t => get_object topo (object_to_path_node t) = Some t) ts ->
  traverse (path_node_to_object topo) (map object_to_path_node ts) = Ok ts.
Proof.
  induction 1 as [|t ts Ht _ IH]; [reflexivity|].
  simpl. unfold path_node_to_object at 1. rewrite Ht. simpl. now rewrite IH.
Qed.

Lemma from_origin_end (topo : Topology) (fuel : nat) (terminations : list Termination)
    (cp : CablePath) :
  from_origin fuel topo terminations = Some (Ok (Some cp)) ->
  exists k s,
    hops topo k (initial terminations) = Some s
    /\ ((Loop.terminations s = [] /\ cp = finish s)
        \/ (Loop.path s <> [] /\ Loop.terminations s <> []
            /\ cp = finish
                      (Loop.set_path
                         (Loop.path s ++ [map object_to_path_node (Loop.terminations s)])
                         s))
        \/ (exists s1 remote s',
              cross_link topo s = Far s1 remote
              /\ next_hop topo s1 remote = Loop.Break s'
              /\ cp = finish s')).
Proof.
  intros H. apply while_loop_run in H as (k & s & Hk & Hend).
  exists k, s. split; [exact Hk|].
  destruct Hend as [[He Hr]|[Hne Hr]].
  - left. split; [exact He|]. now injection Hr.
  - destruct (loop_body topo s) as [s'|s'| |e] eqn:Eb;
      [contradiction| |discriminate|discriminate].
    injection Hr as ->.
    apply loop_body_Break_cases in Eb as [[Hp ->]|(s1 & remote & Hc & Hn)].
    + right. left. repeat split; assumption.
    + right. right. eauto 6.
Qed.

Lemma div3_step (n : nat) : (S (S (S n)) / 3 = S (n / 3))%nat.
Proof.
  change (S (S (S n))) with (3 + n)%nat.
  replace (3 + n)%nat with (1 * 3 + n)%nat by lia.
  rewrite Nat.div_add_l by lia. lia.
Qed.

Lemma segments_length (p : list (list Node)) :
  segments p = true -> (length p = 3 * (length p / 3))%nat.
Proof.
  induction p as [|a|a b|a b c l IH] using list_ind3; cbn [segments];
    intros H; try discriminate.
  - reflexivity.
  - apply andb_true_iff in H as [_ H]. specialize (IH H).
    cbn [length]. rewrite div3_step. lia.
Qed.

Lemma crossed_segments (topo : Topology) (k : nat) (terminations : list Termination)
    (s s1 : Loop.State) (remote : list Termination) :
  hops topo k (initial terminations) = Some s ->
  cross_link topo s = Far s1 remote ->
  remote <> [] ->
  segments (Loop.path s1) = true.
Proof.
  intros Hk Hc Hr. pose proof (hops_segments _ _ _ _ Hk) as Hs.
  apply cross_link_Far in Hc as (t0 & rest & l & Et & _ & _ & _ & _ & -> & _).
  apply segments_app; [exact Hs|]. apply segment_one; [discriminate|exact Hr].
Qed.

(** ** Flags and length of a path that is complete or split *)

(** X1.  A path returned by [from_origin] is never both complete and split,
    and one that is complete or split is made of whole segments: its
    number of hop-groups is three times [segment_count]. *)
Theorem complete_and_split_exclude (fuel : nat) (topo : Topology)
    (terminations : list Termination) (cp : CablePath) :
  from_origin fuel topo terminations = Some (Ok (Some cp)) ->
  (is_complete cp = true ->
   is_split cp = false /\ length (path cp) = (3 * segment_count cp)%nat)
  /\ (is_split cp = true ->
      is_complete cp = false /\ length (path cp) = (3 * segment_count cp)%nat).
Proof.
  intros H. apply from_origin_end in H as (k & s & Hk & Hend).
  destruct (hops_flags _ _ _ _ Hk) as (Hc & Hs & _). cbn in Hc, Hs.
  destruct Hend as [[_ ->]|[(_ & _ & ->)|(s1 & remote & s' & Hcross & Hnext & ->)]].
  - cbn. rewrite Hc, Hs. split; discriminate.
  - cbn. rewrite Hc, Hs. split; discriminate.
  - pose proof (cross_link_Far _ _ _ _ Hcross)
      as (_ & _ & _ & _ & _ & _ & _ & _ & _ & _ & Hc1 & Hs1 & _).
    rewrite Hc in Hc1. rewrite Hs in Hs1.
    apply next_hop_Break_cases in Hnext
      as [(m & b & r & -> & ->)|[(b & n & -> & _ & ->)|(b & c & sd & pn & st & cb & r & _ & Hc' & Hs')]].
    + assert (Hseg := crossed_segments _ _ _ _ _ _ Hk Hcross ltac:(discriminate)).
      apply segments_length in Hseg. cbn. unfold segment_count. cbn. rewrite Hs1.
      split; [now split|discriminate].
    + assert (Hseg := crossed_segments _ _ _ _ _ _ Hk Hcross ltac:(discriminate)).
      apply segments_length in Hseg. cbn. unfold segment_count. cbn. rewrite Hc1.
      split; [discriminate|now split].
    + cbn. rewrite Hc', Hs', Hc1, Hs1. split; discriminate.
Qed.

Lemma complete_and_split_exclude_witness :
  is_split (cls [[(RearPortModel, 1)]; [(CableModel, 2)]; [(RearPortModel, 2)]]
              false true true) = true
  /\ is_complete (cls [[(RearPortModel, 1)]; [(CableModel, 2)]; [(RearPortModel, 2)]]
                    false true true) = false
  /\ length (path (cls [[(RearPortModel, 1)]; [(CableModel, 2)]; [(RearPortModel, 2)]]
                     false true true)) = 3%nat.
Proof.
  destruct (complete_and_split_exclude 1 Sample.Loopback.topo [Sample.Loopback.r1]
              (cls [[(RearPortModel, 1)]; [(CableModel, 2)]; [(RearPortModel, 2)]]
                 false true true)) as [_ H].
  - vm_compute. reflexivity.
  - split; [reflexivity|]. exact (H eq_refl).
Defined.

(** ** segment_count *)

Lemma termination_group_not_link (g : list Node) :
  termination_group g = true -> link_group g = false.
Proof.
  intros H. apply termination_group_no_link in H.
  destruct g as [|n [|m g]]; try reflexivity. simpl in *.
  now rewrite orb_false_r in H.
Qed.

Lemma segmented_count (p : list (list Node)) :
  segmented p = true ->
  (length p / 3 = length (List.filter link_group p))%nat.
Proof.
  induction p as [|a|a b|a b c l IH] using list_ind3; cbn [segmented]; intros H.
  - reflexivity.
  - cbn. now rewrite termination_group_not_link.
  - destruct a as [|[[] ?] [|]]; try discriminate;
      destruct b as [|[[] ?] [|]]; try discriminate; reflexivity.
  - apply andb_true_iff in H as [H Hl]. apply andb_true_iff in H as [H Hc].
    apply andb_true_iff in H as [Ha Hb].
    cbn [length List.filter]. rewrite div3_step, (IH Hl).
    rewrite (termination_group_not_link a Ha), Hb,
      (termination_group_not_link c Hc). reflexivity.
Qed.

(** X2.  For every path [from_origin] returns, [segment_count] is the
    number of links the trace crossed, that is, of link hop-groups in the
    path, whether the trace ended at a far end, at a termination set
    without link or at the end of a circuit. *)
Theorem segment_count_counts_links (fuel : nat) (topo : Topology)
    (terminations : list Termination) (cp : CablePath) :
  from_origin fuel topo terminations = Some (Ok (Some cp)) ->
  segment_count cp = length (List.filter link_group (path cp)).
Proof.
  intros H. apply while_loop_shape in H; [|reflexivity].
  now apply segmented_count.
Qed.

Lemma segment_count_counts_links_witness :
  segment_count
    (cls [[(InterfaceModel, 1)]; [(CableModel, 1)]; [(CircuitTerminationModel, 1)];
          [(CircuitTerminationModel, 2)]; [(ProviderNetworkModel, 5)]]
       false true false) = 1%nat.
Proof.
  exact (segment_count_counts_links 2 Sample.Provider.topo [Sample.Provider.ifA] _
           ltac:(vm_compute; reflexivity)).
Defined.

(** ** origin_type *)

(** X3.  For a path traced from a non-empty origin set, [origin_type] does
    not raise and is the model of the first origin, which every other
    origin shares. *)
Theorem origin_type_of_trace (fuel : nat) (topo : Topology) t0 rest (cp : CablePath) :
  from_origin fuel topo (t0 :: rest) = Some (Ok (Some cp)) ->
  origin_type cp = Ok (model_of t0)
  /\ Forall (fun t => model_of t = model_of t0) rest.
Proof.
  intros H. split; [|now apply from_origin_same_model in H].
  apply from_origin_head in H; [|discriminate]. unfold origin_type.
  destruct (path cp) as [|g p]; [discriminate|]. injection H as ->. reflexivity.
Qed.

Lemma origin_type_of_trace_witness :
  origin_type
    (cls [[(InterfaceModel, 1)]; [(CableModel, 1)]; [(FrontPortModel, 1)];
          [(RearPortModel, 1)]] false true false) = Ok InterfaceModel.
Proof.
  exact (proj1 (origin_type_of_trace 2 Sample.Open.topo Sample.Open.ifA [] _
                  ltac:(vm_compute; reflexivity))).
Defined.

(** ** Destinations of a complete path *)

Lemma last_crossed (topo : Topology) (s s1 : Loop.State) remote :
  cross_link topo s = Far s1 remote ->
  last (Loop.path s1) = Some (map object_to_path_node remote)
  /\ Forall (fun t => get_object topo (object_to_path_node t) = Some t) remote.
Proof.
  intros Hc.
  apply cross_link_Far in Hc as (t0 & rest & l & _ & _ & Hr & _ & _ & -> & _).
  split; [|now apply remote_terminations_rows in Hr].
  change [map object_to_path_node (t0 :: rest); [link_to_path_node l];
          map object_to_path_node remote]
    with ([map object_to_path_node (t0 :: rest); [link_to_path_node l]]
            ++ [map object_to_path_node remote]).
  rewrite app_assoc. apply last_snoc.
Qed.

(** X4.  For a complete path returned by [from_origin], [destinations]
    and [destination_type] do not raise: the destinations are the rows
    reached at the far end of the last link, the first of them a path
    endpoint (never a front port, rear port or circuit termination), and
    [destination_type] is its model. *)
Theorem destinations_of_complete_trace (fuel : nat) (topo : Topology)
    (terminations : list Termination) (cp : CablePath) :
  from_origin fuel topo terminations = Some (Ok (Some cp)) ->
  is_complete cp = true ->
  exists m b ds,
    destinations topo cp = Ok (Endpoint m b :: ds)
    /\ destination_type cp = Ok (Some (model_of (Endpoint m b)))
    /\ Forall (fun d => In d (termination_objects topo)) (Endpoint m b :: ds)
    /\ last (path cp) = Some (map object_to_path_node (Endpoint m b :: ds)).
Proof.
  intros H Hcomplete. apply from_origin_end in H as (k & s & Hk & Hend).
  destruct (hops_flags _ _ _ _ Hk) as (Hc & _ & _). cbn in Hc.
  destruct Hend as [[_ ->]|[(_ & _ & ->)|(s1 & remote & s' & Hcross & Hnext & ->)]];
    try (cbn in Hcomplete; congruence).
  pose proof (cross_link_Far _ _ _ _ Hcross)
    as (_ & _ & _ & _ & _ & _ & _ & _ & _ & _ & Hc1 & _).
  destruct (last_crossed _ _ _ _ Hcross) as [Hlast Hrows].
  apply next_hop_Break_cases in Hnext
    as [(m & b & r & -> & ->)|[(b & n & -> & _ & ->)|(b & c & sd & pn & st & cb & r & _ & Hc' & _)]];
    try (cbn in Hcomplete; congruence).
  exists m, b, r. unfold destinations, destination_type.
  cbn [finish cls is_complete path _path_objects Loop.set_is_complete Loop.is_complete
       Loop.path negb].
  rewrite Hlast. split; [now apply traverse_decode_rows|]. split; [reflexivity|].
  split; [|reflexivity].
  eapply Forall_impl; [exact Hrows|]. intros d Hd. now apply get_object_In in Hd.
Qed.

Lemma destinations_of_complete_trace_witness :
  exists m b ds,
    destinations Sample.Open.topo
      (cls [[(FrontPortModel, 1)]; [(CableModel, 1)]; [(InterfaceModel, 1)]]
         true true false) = Ok (Endpoint m b :: ds)
    /\ destination_type
         (cls [[(FrontPortModel, 1)]; [(CableModel, 1)]; [(InterfaceModel, 1)]]
            true true false) = Ok (Some (model_of (Endpoint m b))).
Proof.
  destruct (destinations_of_complete_trace 1 Sample.Open.topo [Sample.Open.f1]
              (cls [[(FrontPortModel, 1)]; [(CableModel, 1)]; [(InterfaceModel, 1)]]
                 true true false))
    as (m & b & ds & H1 & H2 & _); [vm_compute; reflexivity|reflexivity|].
  exists m, b, ds. now split.
Defined.

(** ** Candidates at a split *)

Lemma save_instance (db db' : Database) (self self' : CablePath) :
  save db self = Ok (db', self') ->
  path self' = path self
  /\ _nodes self' = Some (flatten_path (path self))
  /\ is_active self' = is_active self
  /\ is_complete self' = is_complete self
  /\ is_split self' = is_split self
  /\ cp_pk self' = Some (default (next_pk db) (cp_pk self)).
Proof.
  unfold save. intros H.
  destruct (origins (topology db) _) as [[|o0 os]|]; try discriminate H.
  cbn [bind] in H. destruct (negb _); [discriminate H|].
  injection H as <- <-. repeat split.
Qed.

Lemma last_concat_snoc {A} (p : list (list A)) (g : list A) (x : A) :
  last (concat (p ++ [g ++ [x]])) = Some x.
Proof. rewrite concat_app. simpl. rewrite app_nil_r, app_assoc. apply last_snoc. Qed.

(** X5.  For a split path returned by [from_origin] and then saved,
    [get_split_nodes] does not raise: the trace stopped at a single rear
    port of other than one position, the last node of the path, and the
    answer is every front port attached to that rear port. *)
Theorem get_split_nodes_of_trace (fuel : nat) (db db' : Database)
    (terminations : list Termination) (cp cp' : CablePath) :
  from_origin fuel (topology db) terminations = Some (Ok (Some cp)) ->
  is_split cp = true ->
  save db cp = Ok (db', cp') ->
  exists b n nodes,
    n <> 1
    /\ In (RearPort b n) (termination_objects (topology db))
    /\ _nodes cp' = Some nodes
    /\ last nodes = Some (RearPortModel, base_pk b)
    /\ get_split_nodes (topology db) cp'
       = Ok (List.filter
               (fun t => match t with
                         | FrontPort _ r _ => bool_decide (r = base_pk b)
                         | _ => false
                         end)
               (termination_objects (topology db))).
Proof.
  intros H Hsplit Hsave. apply save_instance in Hsave as (_ & Hnodes & _).
  apply from_origin_end in H as (k & s & Hk & Hend).
  destruct (hops_flags _ _ _ _ Hk) as (_ & Hs & _). cbn in Hs.
  destruct Hend as [[_ ->]|[(_ & _ & ->)|(s1 & remote & s' & Hcross & Hnext & ->)]];
    try (cbn in Hsplit; congruence).
  pose proof (cross_link_Far _ _ _ _ Hcross)
    as (t0 & rest & l & _ & _ & _ & _ & _ & Hp & _ & _ & Hs1 & _).
  destruct (last_crossed _ _ _ _ Hcross) as [_ Hrows].
  apply next_hop_Break_cases in Hnext
    as [(m & b & r & -> & ->)|[(b & n & -> & Hn & ->)|(b & c & sd & pn & st & cb & r & _ & _ & Hs')]];
    try (cbn in Hsplit; congruence).
  apply Forall_inv in Hrows. eexists b, n, _.
  split; [exact Hn|].
  split; [now apply get_object_In in Hrows|]. split; [exact Hnodes|].
  match goal with |- last ?ns = _ /\ _ =>
    assert (Hlast : last ns = Some (RearPortModel, base_pk b))
  end.
  { cbn [finish cls path Loop.set_is_split Loop.path]. rewrite Hp.
    unfold flatten_path.
    change [map object_to_path_node (t0 :: rest); [link_to_path_node l];
            map object_to_path_node [RearPort b n]]
      with ([map object_to_path_node (t0 :: rest); [link_to_path_node l]]
              ++ [[] ++ [(RearPortModel, base_pk b)]]).
    rewrite app_assoc. apply last_concat_snoc. }
  split; [exact Hlast|]. unfold get_split_nodes. rewrite Hnodes, Hlast.
  unfold path_node_to_object. change (RearPortModel, base_pk b)
    with (object_to_path_node (RearPort b n)). rewrite Hrows. reflexivity.
Qed.

Lemma get_split_nodes_of_trace_witness :
  exists db' cp',
    save Sample.Split.db Sample.Split.traced = Ok (db', cp')
    /\ get_split_nodes Sample.Split.topo cp' = Ok [Sample.Split.f1; Sample.Split.f2].
Proof.
  destruct (save Sample.Split.db Sample.Split.traced) as [[db' cp']|] eqn:Es;
    [|vm_compute in Es; discriminate Es].
  exists db', cp'. split; [reflexivity|].
  destruct (get_split_nodes_of_trace 2 Sample.Split.db db' [Sample.Split.ifA]
              Sample.Split.traced cp' ltac:(vm_compute; reflexivity) eq_refl Es)
    as (b & n & nodes & _ & _ & Hnodes & Hlast & H).
  change (topology Sample.Split.db) with Sample.Split.topo in H. rewrite H.
  assert (base_pk b = 1) as ->.
  { vm_compute in Es. injection Es as _ <-. cbn in Hnodes. injection Hnodes as <-.
    cbn in Hlast. now injection Hlast. }
  reflexivity.
Defined.

(** ** When no path is returned *)

Lemma cross_link_ReturnNone (topo : Topology) (s : Loop.State) :
  cross_link topo s = Stop Loop.ReturnNone ->
  Loop.path s = []
  /\ exists t0 rest,
       Loop.terminations s = t0 :: rest
       /\ Forall (fun t => link t = None) (t0 :: rest).
Proof.
  intros H. pose proof (cross_link_Stop _ _ _ H) as [[e He]|[[_ Hp]|[_ He]]];
    try discriminate He.
  split; [exact Hp|]. unfold cross_link in H.
  destruct (Loop.terminations s) as [|t0 rest]; [discriminate|].
  destruct (forallb (fun t => isinstance t t0) rest); [|discriminate].
  destruct (forallb _ rest) in H; [|discriminate].
  destruct (forallb (fun t => link_eqb (link t) (link t0)) rest) eqn:El; [|discriminate].
  cbn [negb] in H. destruct (link t0) as [l|] eqn:E0.
  { destruct (remote_terminations_of _ _ _ _); discriminate. }
  exists t0, rest. split; [reflexivity|]. constructor; [exact E0|].
  apply Forall_forall. intros t Ht. rewrite forallb_forall in El.
  apply list_elem_of_In in Ht. specialize (El t Ht).
  destruct (link t); [discriminate|reflexivity].
Qed.

(** X6.  [from_origin] returns [None] only on its first pass, and only
    for an origin set none of whose terminations has a link: a set whose
    first termination is linked never yields [None]. *)
Theorem from_origin_None_only_unlinked (fuel : nat) (topo : Topology)
    (terminations : list Termination) :
  from_origin fuel topo terminations = Some (Ok None) ->
  terminations <> [] /\ Forall (fun t => link t = None) terminations.
Proof.
  intros H. apply while_loop_run in H as (k & s & Hk & Hend).
  destruct Hend as [[_ Hr]|[Hne Hr]]; [discriminate|].
  unfold loop_body in Hr.
  destruct (cross_link topo s) as [s1 remote|st] eqn:Ec.
  { destruct (next_hop topo s1 remote) eqn:En; try discriminate; try contradiction.
    unfold next_hop in En. step_cases En. }
  destruct st; try discriminate; try contradiction.
  apply cross_link_ReturnNone in Ec as (Hp & t0 & rest & Et & Hl).
  destruct k as [|k].
  - injection Hk as <-. cbn in Et. rewrite Et. split; [discriminate|exact Hl].
  - apply hops_flags in Hk as (_ & _ & Hk). now destruct Hk.
Qed.

Lemma from_origin_None_only_unlinked_witness :
  [Sample.Open.ifC] <> [] /\ Forall (fun t => link t = None) [Sample.Open.ifC].
Proof.
  apply (from_origin_None_only_unlinked 1 Sample.Open.topo [Sample.Open.ifC]).
  vm_compute. reflexivity.
Defined.

(** ** Termination sets that are not one group *)

(** X7.  An origin set in which some termination differs from the first
    in model, in parent or in link makes [from_origin] raise
    [AssertionError] on its first pass: no path and no [None] comes back. *)
Theorem from_origin_mixed_group (fuel : nat) (topo : Topology) t0 rest :
  Exists (fun t => model_of t <> model_of t0
                   \/ parent_object t <> parent_object t0
                   \/ link_eqb (link t) (link t0) = false) rest ->
  from_origin (S fuel) topo (t0 :: rest) = Some (Raise AssertionError).
Proof.
  intros Hex. unfold from_origin. erewrite while_loop_unfold by reflexivity.
  unfold loop_body, cross_link. cbn [initial Loop.terminations].
  destruct (forallb (fun t => isinstance t t0) rest) eqn:Ei; [|reflexivity].
  destruct (forallb (fun t => bool_decide (parent_object t = parent_object t0)) rest)
    eqn:Ep; [|reflexivity].
  destruct (forallb (fun t => link_eqb (link t) (link t0)) rest) eqn:El; [|reflexivity].
  exfalso. apply Exists_exists in Hex as (t & Ht & Hbad).
  apply list_elem_of_In in Ht. rewrite forallb_forall in Ei, Ep, El.
  specialize (Ei t Ht). specialize (Ep t Ht). specialize (El t Ht).
  apply bool_decide_eq_true in Ei, Ep.
  destruct Hbad as [Hbad|[Hbad|Hbad]]; congruence.
Qed.

Lemma from_origin_mixed_group_witness :
  from_origin 1 Sample.Open.topo [Sample.Open.ifA; Sample.Open.f1]
  = Some (Raise AssertionError).
Proof.
  apply (from_origin_mixed_group 0 Sample.Open.topo Sample.Open.ifA [Sample.Open.f1]).
  constructor. left. discriminate.
Defined.

(** ** Hardware of one position *)

(** X8.  In a topology all of whose rear ports have exactly one
    position, no path returned by [from_origin] is split. *)
Theorem single_position_never_splits (fuel : nat) (topo : Topology)
    (terminations : list Termination) (cp : CablePath) :
  (forall b n, In (RearPort b n) (termination_objects topo) -> n = 1) ->
  from_origin fuel topo terminations = Some (Ok (Some cp)) ->
  is_split cp = false.
Proof.
  intros Hone H. destruct (is_split cp) eqn:Hsplit; [exfalso|reflexivity].
  apply from_origin_end in H as (k & s & Hk & Hend).
  destruct (hops_flags _ _ _ _ Hk) as (_ & Hs & _). cbn in Hs.
  destruct Hend as [[_ ->]|[(_ & _ & ->)|(s1 & remote & s' & Hcross & Hnext & ->)]];
    try (cbn in Hsplit; congruence).
  pose proof (cross_link_Far _ _ _ _ Hcross)
    as (_ & _ & _ & _ & _ & _ & _ & _ & _ & _ & _ & Hs1 & _).
  destruct (last_crossed _ _ _ _ Hcross) as [_ Hrows].
  apply next_hop_Break_cases in Hnext
    as [(m & b & r & -> & ->)|[(b & n & -> & Hn & ->)|(b & c & sd & pn & st & cb & r & _ & _ & Hs')]];
    try (cbn in Hsplit; congruence).
  apply Forall_inv, get_object_In in Hrows. apply Hn. now apply (Hone b).
Qed.

Lemma single_position_never_splits_witness :
  is_split (cls [[(InterfaceModel, 1)]; [(CableModel, 1)]; [(FrontPortModel, 1)];
                 [(RearPortModel, 1)]] false true false) = false.
Proof.
  apply (single_position_never_splits 2 Sample.Open.topo [Sample.Open.ifA]).
  - intros b n [H|[H|[H|[H|[]]]]]; try discriminate H. now injection H.
  - vm_compute. reflexivity.
Defined.

(** ** Active paths *)

Lemma next_hop_Continue_rows (topo : Topology) (s s' : Loop.State) remote :
  next_hop topo s remote = Loop.Continue s' ->
  Forall (fun t => In t (termination_objects topo)) (Loop.terminations s').
Proof.
  assert (Hf : forall f, Forall (fun t => In t (termination_objects topo))
                           (List.filter f (termination_objects topo))).
  { intros f. apply Forall_forall. intros t Ht. apply list_elem_of_In in Ht.
    now apply filter_In in Ht as [Ht _]. }
  unfold next_hop. intros H. step_cases H; injection H as <-;
    cbn [Loop.terminations Loop.set_terminations Loop.set_position_stack];
    try apply Hf.
  all: try match goal with
           | E : RearPort_filter_pk_in _ _ = _ |- _ => rewrite <- E; apply Hf
           end.
  all: match goal with
       | E : CircuitTermination_first _ _ _ = Some _ |- _ =>
           apply find_some in E as [E _]; subst; repeat constructor; exact E
       end.
Qed.

(** X9.  If every link attached to an origin or to a row of the
    termination tables is connected, every path [from_origin] returns is
    active: [is_active] is cleared by nothing but a link that is not
    connected. *)
Theorem all_connected_active (fuel : nat) (topo : Topology)
    (terminations : list Termination) (cp : CablePath) :
  (forall t l,
      In t terminations \/ In t (termination_objects topo) ->
      link t = Some l -> status l = STATUS_CONNECTED) ->
  from_origin fuel topo terminations = Some (Ok (Some cp)) ->
  is_active cp = true.
Proof.
  intros Hgood H. apply from_origin_end in H as (k & s & Hk & Hend).
  assert (Hinv : Loop.is_active s = true
                 /\ Forall (fun t => In t terminations \/ In t (termination_objects topo))
                      (Loop.terminations s)).
  { revert Hk.
    apply (hops_invariant topo
             (fun s => Loop.is_active s = true
                       /\ Forall (fun t => In t terminations
                                           \/ In t (termination_objects topo))
                            (Loop.terminations s))).
    - split; [reflexivity|]. apply Forall_forall. intros t Ht. left.
      now apply list_elem_of_In.
    - intros s1 s2 [Ha Hts] _ Hb. unfold loop_body in Hb.
      destruct (cross_link topo s1) as [s3 remote|st] eqn:Ec; [|subst st].
      + pose proof (cross_link_Far _ _ _ _ Ec)
          as (t0 & rest & l & Et & El & _ & _ & _ & _ & _ & _ & _ & Hact).
        rewrite Et in Hts. apply Forall_inv in Hts.
        rewrite bool_decide_eq_false_2 in Hact
          by (intros Hn; apply Hn; now apply (Hgood t0)).
        pose proof (next_hop_Continue_rows _ _ _ _ Hb) as Hrows.
        apply next_hop_Continue in Hb as (_ & _ & _ & -> & _).
        split; [congruence|].
        eapply Forall_impl; [exact Hrows|]. intros t Ht. now right.
      + apply cross_link_Stop in Ec as [[e He]|[[He _]|[_ He]]]; discriminate He. }
  destruct Hinv as [Ha Hts].
  destruct Hend as [[_ ->]|[(_ & _ & ->)|(s1 & remote & s' & Hcross & Hnext & ->)]];
    try exact Ha.
  pose proof (cross_link_Far _ _ _ _ Hcross)
    as (t0 & rest & l & Et & El & _ & _ & _ & _ & _ & _ & _ & Hact).
  rewrite Et in Hts. apply Forall_inv in Hts.
  rewrite bool_decide_eq_false_2 in Hact
    by (intros Hn; apply Hn; now apply (Hgood t0)).
  apply next_hop_Break in Hnext as (_ & Hact' & _).
  cbn. congruence.
Qed.

Lemma all_connected_active_witness :
  is_active (cls [[(InterfaceModel, 1)]; [(CableModel, 1)]; [(FrontPortModel, 1)];
                  [(RearPortModel, 1)]] false true false) = true.
Proof.
  apply (all_connected_active 2 Sample.Open.topo [Sample.Open.ifA]).
  - intros t l Hin Hl.
    assert (H : In t (termination_objects Sample.Open.topo)).
    { destruct Hin as [[<-|[]]|H]; [now left|exact H]. }
    clear Hin.
    repeat (destruct H as [<-|H];
            [vm_compute in Hl; first [discriminate Hl | now injection Hl as <-]|]).
    destruct H.
  - vm_compute. reflexivity.
Defined.

Lemma link_not_connected_inactive_witness :
  is_active (cls [[(InterfaceModel, 1)]; [(CableModel, 5)]; [(InterfaceModel, 2)]]
               true false false) = false.
Proof.
  apply (link_not_connected_inactive Sample.Planned.topo [Sample.Planned.ifA] 0
           (initial [Sample.Planned.ifA]) Sample.Planned.ifA []
           (LinkCable Sample.Planned.c5) eq_refl eq_refl eq_refl
           ltac:(discriminate) 1).
  vm_compute. reflexivity.
Defined.

(** ** Total length, continued *)

Lemma definitive_sound (topo : Topology) (ids : list Z) :
  List.NoDup (map cable_pk (cable_objects topo)) ->
  snd (total_length_of topo ids) = true ->
  List.NoDup ids.
Proof.
  intros Hpks H. unfold total_length_of in H. cbn [snd] in H.
  apply bool_decide_eq_true in H.
  set (cables := List.filter _ (cable_objects topo)) in H.
  apply (@NoDup_incl_NoDup _ (map cable_pk cables) ids).
  - now apply filter_map_NoDup.
  - rewrite length_map. lia.
  - intros id Hid. apply in_map_iff in Hid as (c & <- & Hc).
    apply filter_In in Hc as [_ Hc]. apply andb_true_iff in Hc as [Hc _].
    apply bool_decide_eq_true in Hc. now apply list_elem_of_In.
Qed.

Lemma get_total_length_Ok (topo : Topology) (self : CablePath) (ids : list Z) :
  get_cable_ids self = Ok ids ->
  get_total_length topo self = Ok (total_length_of topo ids).
Proof. intros H. unfold get_total_length. now rewrite H. Qed.

(** X11.  With cable keys unique in their table, and for a path whose
    nodes are set, [get_total_length] answers [is_definitive] exactly when
    no cable occurs twice among the nodes of the path and every one of them
    has a row with a recorded length; so a definitive answer is never given
    for a path with a cable of unknown length. *)
Theorem is_definitive_iff (topo : Topology) (self : CablePath) (ids : list Z) :
  List.NoDup (map cable_pk (cable_objects topo)) ->
  get_cable_ids self = Ok ids ->
  (exists total, get_total_length topo self = Ok (total, true)) <->
  List.NoDup ids
  /\ forall id, In id ids ->
                exists c, In c (cable_objects topo) /\ cable_pk c = id
                          /\ has_length c = true.
Proof.
  intros Hpks Hget. rewrite (get_total_length_Ok topo self ids Hget).
  assert (Hsnd : (exists total, Ok (total_length_of topo ids) = Ok (total, true))
                 <-> snd (total_length_of topo ids) = true).
  { destruct (total_length_of topo ids) as [total b]. cbn [snd]. split.
    - intros [total' H]. now injection H.
    - intros ->. now exists total. }
  rewrite Hsnd. split.
  - intros H. pose proof (definitive_sound topo ids Hpks H) as Hids.
    split; [exact Hids|]. now apply (get_total_length_definitive topo ids Hids Hpks).
  - intros [Hids Hall]. now apply (get_total_length_definitive topo ids Hids Hpks).
Qed.

Lemma is_definitive_iff_witness :
  exists total,
    get_total_length Sample.Open.topo
      {| cp_pk := Some 1;
         path := [[(InterfaceModel, 1)]; [(CableModel, 1)]; [(FrontPortModel, 1)]];
         is_active := true; is_complete := false; is_split := false;
         _nodes := Some [(InterfaceModel, 1); (CableModel, 1); (FrontPortModel, 1)];
         _path_objects := None |} = Ok (total, true).
Proof.
  apply (is_definitive_iff Sample.Open.topo _ [1]).
  - repeat constructor. intros [].
  - reflexivity.
  - split.
    + repeat constructor. intros [].
    + intros id [<-|[]]. exists Sample.c1. repeat split. now left.
Defined.

(** X12.  For a path whose nodes are set, the total of [get_total_length]
    is [None], not zero, exactly when no cable among the nodes of the path
    has a row with a recorded length; a path with no cable node at all gets
    [(None, True)]; and on an instance whose nodes are not set yet the call
    raises [TypeError]. *)
Theorem total_length_None_iff (topo : Topology) (self : CablePath) :
  (forall ids,
      get_cable_ids self = Ok ids ->
      (exists b, get_total_length topo self = Ok (None, b)) <->
      forall c, In c (cable_objects topo) -> In (cable_pk c) ids ->
                _abs_length c = None)
  /\ (get_cable_ids self = Ok [] -> get_total_length topo self = Ok (None, true))
  /\ (_nodes self = None -> get_total_length topo self = Raise TypeError).
Proof.
  assert (Hempty : forall ids,
             List.filter (fun c => in_list (cable_pk c) ids && has_length c)
               (cable_objects topo) = [] <->
             forall c, In c (cable_objects topo) -> In (cable_pk c) ids ->
                       _abs_length c = None).
  { intros ids. set (cables := List.filter _ (cable_objects topo)). split.
    - intros He c Hc Hid. destruct (_abs_length c) as [x|] eqn:Ex; [|reflexivity].
      assert (Hin : In c cables).
      { apply filter_In. split; [exact Hc|]. apply andb_true_iff. split.
        - apply bool_decide_eq_true. now apply list_elem_of_In.
        - unfold has_length. now rewrite Ex. }
      rewrite He in Hin. destruct Hin.
    - intros Hall. destruct cables as [|c cs] eqn:Ec; [reflexivity|exfalso].
      assert (Hin : In c cables) by (rewrite Ec; now left).
      apply filter_In in Hin as [Hc Hp]. apply andb_true_iff in Hp as [Hid Hl].
      apply bool_decide_eq_true, list_elem_of_In in Hid.
      unfold has_length in Hl. now rewrite (Hall c Hc Hid) in Hl. }
  split; [|split].
  - intros ids Hget. rewrite (get_total_length_Ok topo self ids Hget).
    rewrite <- (Hempty ids). unfold total_length_of.
    destruct (List.filter _ (cable_objects topo)) as [|c cs]; simpl; split.
    + reflexivity.
    + intros _. eexists. reflexivity.
    + intros [b H]. discriminate H.
    + discriminate.
  - intros Hget. rewrite (get_total_length_Ok topo self [] Hget).
    unfold total_length_of.
    rewrite (proj2 (Hempty [])); [reflexivity|]. intros c _ [].
  - intros Hn. unfold get_total_length, get_cable_ids. now rewrite Hn.
Qed.

Lemma total_length_None_iff_witness :
  get_total_length Sample.Open.topo
    {| cp_pk := Some 2; path := [[(InterfaceModel, 3)]];
       is_active := false; is_complete := false; is_split := false;
       _nodes := Some [(InterfaceModel, 3)]; _path_objects := None |}
  = Ok (None, true).
Proof.
  exact (proj1 (proj2 (total_length_None_iff Sample.Open.topo
                         {| cp_pk := Some 2; path := [[(InterfaceModel, 3)]];
                            is_active := false; is_complete := false;
                            is_split := false;
                            _nodes := Some [(InterfaceModel, 3)];
                            _path_objects := None |})) eq_refl).
Defined.

(** ** Cable ids and segments *)

Lemma link_nodes_of_segmented (p : list (list Node)) :
  segmented p = true ->
  length (List.filter is_link_node (concat p)) = length (List.filter link_group p).
Proof.
  assert (Hnone : forall g, existsb is_link_node g = false ->
                            List.filter is_link_node g = []).
  { intros g. induction g as [|n g IH]; [reflexivity|]. simpl. intros H.
    apply orb_false_iff in H as [Hn Hg]. rewrite Hn. auto. }
  induction p as [|a|a b|a b c l IH] using list_ind3; cbn [segmented]; intros H.
  - reflexivity.
  - simpl. rewrite app_nil_r, (termination_group_not_link a H).
    now rewrite Hnone by now apply termination_group_no_link.
  - destruct a as [|[[] ?] [|]]; try discriminate;
      destruct b as [|[[] ?] [|]]; try discriminate; reflexivity.
  - apply andb_true_iff in H as [H Hl]. apply andb_true_iff in H as [H Hc].
    apply andb_true_iff in H as [Ha Hb].
    cbn [concat List.filter]. rewrite !List.filter_app, !length_app, (IH Hl).
    rewrite (termination_group_not_link a Ha), Hb, (termination_group_not_link c Hc).
    rewrite (Hnone a), (Hnone c) by now apply termination_group_no_link.
    destruct b as [|n [|]]; try discriminate. simpl in Hb |- *. rewrite Hb.
    reflexivity.
Qed.

Lemma link_nodes_split (ns : list Node) :
  length (List.filter is_link_node ns)
  = (length (List.filter (fun n => bool_decide (fst n = CableModel)) ns)
     + length (List.filter (fun n => bool_decide (fst n = WirelessLinkModel)) ns))%nat.
Proof.
  induction ns as [|[m k] ns IH]; [reflexivity|].
  destruct m; simpl; rewrite IH; lia.
Qed.

(** X13.  For a path returned by [from_origin] and then saved,
    [get_cable_ids] does not raise, and [segment_count] is the number of
    ids it lists plus the number of wireless-link nodes: each segment
    crosses one cable or one wireless link, and a cable crossed twice is
    listed twice. *)
Theorem cable_ids_and_segments (fuel : nat) (db db' : Database)
    (terminations : list Termination) (cp cp' : CablePath) :
  from_origin fuel (topology db) terminations = Some (Ok (Some cp)) ->
  save db cp = Ok (db', cp') ->
  exists ids nodes,
    get_cable_ids cp' = Ok ids
    /\ _nodes cp' = Some nodes
    /\ segment_count cp'
       = (length ids
          + length (List.filter (fun n => bool_decide (fst n = WirelessLinkModel))
                      nodes))%nat.
Proof.
  intros H Hsave. apply save_instance in Hsave as (Hp & Hn & _).
  apply while_loop_shape in H; [|reflexivity].
  exists (cable_ids_of (flatten_path (path cp))), (flatten_path (path cp)).
  split; [unfold get_cable_ids; now rewrite Hn|]. split; [exact Hn|].
  unfold segment_count, cable_ids_of. rewrite length_map, Hp.
  rewrite (segmented_count _ H), <- (link_nodes_of_segmented _ H).
  apply link_nodes_split.
Qed.

Lemma cable_ids_and_segments_witness :
  exists db' cp',
    save Sample.Split.db Sample.Split.traced = Ok (db', cp')
    /\ segment_count cp' = 1%nat
    /\ get_cable_ids cp' = Ok [1].
Proof.
  destruct (save Sample.Split.db Sample.Split.traced) as [[db' cp']|] eqn:Es;
    [|vm_compute in Es; discriminate Es].
  exists db', cp'. split; [reflexivity|].
  destruct (cable_ids_and_segments 2 Sample.Split.db db' [Sample.Split.ifA]
              Sample.Split.traced cp' ltac:(vm_compute; reflexivity) Es)
    as (ids & nodes & Hids & Hnodes & H).
  vm_compute in Es. injection Es as _ <-. split; [|reflexivity].
  rewrite H. vm_compute in Hids, Hnodes. injection Hids as <-.
  injection Hnodes as <-. reflexivity.
Defined.

(** ** What save writes *)

(** X14.  [save] writes one row and the back-references of the origins,
    nothing else: the topology and every other row of the CablePath table
    are unchanged, and so is the back-reference of every termination that
    is not (origin model, key of an origin). *)
Theorem save_frame (db db' : Database) (self self' : CablePath) :
  save db self = Ok (db', self') ->
  topology db' = topology db
  /\ (forall k, Some k <> cp_pk self' -> cable_paths db' !! k = cable_paths db !! k)
  /\ exists o0 os,
       origins (topology db) self' = Ok (o0 :: os)
       /\ forall n,
            (forall o, In o (o0 :: os) -> n <> (model_of o0, pk o)) ->
            _path db' !! n = _path db !! n.
Proof.
  unfold save. intros H.
  destruct (origins (topology db) _) as [[|o0 os]|] eqn:Eo; try discriminate H.
  cbn [bind] in H. destruct (negb _); [discriminate H|].
  injection H as <- <-. cbn [topology cable_paths _path cp_pk].
  split; [reflexivity|]. split.
  - intros k Hk. apply lookup_insert_ne. congruence.
  - exists o0, os. split; [exact Eo|]. intros n Hn. rewrite lookup_update_path.
    rewrite bool_decide_eq_false_2; [reflexivity|].
    intros Hin. apply list_elem_of_In, in_map_iff in Hin as (t & <- & Ht).
    unfold filter_pk_in in Ht. apply filter_In in Ht as [_ Ht].
    apply andb_true_iff in Ht as [Hm Hk].
    apply bool_decide_eq_true in Hm.
    apply bool_decide_eq_true, list_elem_of_In in Hk.
    change (pk o0 :: map pk os) with (map pk (o0 :: os)) in Hk.
    apply in_map_iff in Hk as (o & Hpk & Ho).
    apply (Hn o Ho). unfold object_to_path_node. congruence.
Qed.

Lemma save_frame_witness :
  exists db' self',
    save Sample.Open.db Sample.Loopback.stale = Ok (db', self')
    /\ cable_paths db' !! 4 = cable_paths Sample.Open.db !! 4
    /\ _path db' !! (InterfaceModel, 3) = Some 4.
Proof.
  destruct (save Sample.Open.db Sample.Loopback.stale) as [[db' self']|] eqn:Es;
    [|vm_compute in Es; discriminate Es].
  exists db', self'. split; [reflexivity|].
  destruct (save_frame _ _ _ _ Es) as (_ & Hrows & o0 & os & Ho & Hrefs).
  assert (Hself : cp_pk self' = Some 1 /\ o0 :: os = [Sample.Open.ifA]).
  { vm_compute in Es. injection Es as _ <-. vm_compute in Ho. split; [reflexivity|].
    injection Ho as <- <-. reflexivity. }
  destruct Hself as [Hk Hos]. split.
  - apply Hrows. rewrite Hk. discriminate.
  - injection Hos as -> ->. rewrite Hrefs; [reflexivity|].
    intros o [<-|[]]. discriminate.
Defined.

(** X15.  [save] gives an unsaved path the next key of the table and
    leaves the key of a saved one alone; the saved instance carries the
    flattened path in [_nodes], its row is what a lookup under the key
    returns, and saving the result again changes neither the database nor
    the instance. *)
Theorem save_key_and_idempotent (db db' : Database) (self self' : CablePath) :
  save db self = Ok (db', self') ->
  cp_pk self' = Some (default (next_pk db) (cp_pk self))
  /\ next_pk db' = match cp_pk self with
                   | Some _ => next_pk db
                   | None => next_pk db + 1
                   end
  /\ _nodes self' = Some (concat (path self))
  /\ cable_paths db' !! default (next_pk db) (cp_pk self) = Some (row_of self')
  /\ save db' self' = Ok (db', self').
Proof.
  unfold save. intros H.
  destruct (origins (topology db) _) as [[|o0 os]|] eqn:Eo; try discriminate H.
  cbn [bind] in H. destruct (negb _) eqn:Ef; [discriminate H|].
  injection H as <- <-.
  cbn [cp_pk path is_active is_complete is_split _nodes _path_objects topology
       cable_paths _path next_pk default].
  split; [reflexivity|]. split; [reflexivity|]. split; [reflexivity|].
  split; [apply lookup_insert_eq|].
  unfold origins in Eo |- *. cbn [path _path_objects] in Eo |- *.
  rewrite Eo. cbn [bind]. rewrite Ef, insert_insert_eq, update_path_idempotent.
  reflexivity.
Qed.

Lemma save_key_and_idempotent_witness :
  exists db' self',
    save Sample.Loopback.db
      (cls [[(InterfaceModel, 1)]; [(CableModel, 1)]; [(FrontPortModel, 1)]]
         false true false) = Ok (db', self')
    /\ cp_pk self' = Some 1 /\ next_pk db' = 2
    /\ save db' self' = Ok (db', self').
Proof.
  destruct (save Sample.Loopback.db
              (cls [[(InterfaceModel, 1)]; [(CableModel, 1)]; [(FrontPortModel, 1)]]
                 false true false)) as [[db' self']|] eqn:Es;
    [|vm_compute in Es; discriminate Es].
  exists db', self'. split; [reflexivity|].
  destruct (save_key_and_idempotent _ _ _ _ Es) as (Hk & Hn & _ & _ & Hi).
  repeat split; assumption.
Defined.

(** ** Retracing a path without origins *)

(** X16.  [retrace] of a path whose decoded content has no origin
    termination (an empty path, or an empty first hop-group) never
    succeeds: it raises [IndexError], at once when the path is empty, and
    otherwise from [save], after the trace of the empty set came back with
    an empty path. *)
Theorem retrace_without_origins (fuel : nat) (db : Database) (self : CablePath) :
  _path_objects self = None ->
  path self = [] \/ (exists p, path self = [] :: p) ->
  retrace (S fuel) db self = Some (Raise IndexError).
Proof.
  intros Hcache Hp. unfold retrace, origins. rewrite Hcache.
  destruct Hp as [-> | [p ->]]; [reflexivity|].
  cbn [traverse]. unfold from_origin. cbn [while_loop initial Loop.terminations].
  unfold save, origins.
  cbn [cp_pk path is_active is_complete is_split _nodes _path_objects finish cls
       initial Loop.path].
  reflexivity.
Qed.

Lemma retrace_without_origins_witness :
  retrace 1 Sample.Open.db (cls [[]; [(CableModel, 1)]] false true false)
  = Some (Raise IndexError).
Proof.
  apply (retrace_without_origins 0 Sample.Open.db
           (cls [[]; [(CableModel, 1)]] false true false) eq_refl).
  right. now eexists.
Defined.

(** ** Cable: length and unit *)

Lemma Cable_clean_cases
    (super_clean : CableInstance.t -> Validated CableInstance.t)
    (self cleaned : CableInstance.t) :
  Cable_clean super_clean self = Valid cleaned ->
  (CableInstance.length cleaned = None /\ CableInstance.length_unit cleaned = "")
  \/ (exists l, CableInstance.length cleaned = Some l
                 /\ CableInstance.length_unit cleaned <> "").
Proof.
  unfold Cable_clean. intros H.
  destruct (super_clean self) as [s1|m]; [|discriminate].
  destruct (CableInstance.length s1) as [l|] eqn:El.
  - case_bool_decide as Hu; [discriminate|]. injection H as <-. right. eauto.
  - injection H as <-. left. now split.
Qed.

(** X17.  A cable that passes [clean] has a unit exactly when it has a
    length: a length without unit is refused, and a unit without length is
    blanked. *)
Theorem Cable_clean_unit_iff_length
    (super_clean : CableInstance.t -> Validated CableInstance.t)
    (self cleaned : CableInstance.t) :
  Cable_clean super_clean self = Valid cleaned ->
  (CableInstance.length cleaned = None <-> CableInstance.length_unit cleaned = "").
Proof.
  intros H. apply Cable_clean_cases in H as [[Hl Hu]|(l & Hl & Hu)].
  - now split.
  - rewrite Hl. split; [discriminate|contradiction].
Qed.

Lemma Cable_clean_unit_iff_length_witness :
  exists cleaned,
    Cable_clean Valid SampleCable.unit_only = Valid cleaned
    /\ CableInstance.length_unit cleaned = "".
Proof.
  eexists. split; [reflexivity|].
  apply (Cable_clean_unit_iff_length Valid SampleCable.unit_only); reflexivity.
Defined.

(** X18.  After [clean] and [save], a cable has a normalized length
    exactly when its length is present and not zero, and it is then what
    [to_meters] gives for the length and unit; a cable of length zero is
    stored without normalized length, like one with no length.  The
    instance has a key, which [_pk] copies. *)
Theorem Cable_save_abs_length
    (super_clean : CableInstance.t -> Validated CableInstance.t)
    (to_meters : Z -> string -> Result Z) (next : Z)
    (self cleaned saved : CableInstance.t) :
  Cable_clean super_clean self = Valid cleaned ->
  Cable_save to_meters next cleaned = Ok saved ->
  (CableInstance._abs_length saved = None <->
   CableInstance.length saved = None \/ CableInstance.length saved = Some 0)
  /\ (forall m, CableInstance._abs_length saved = Some m ->
                exists l, CableInstance.length saved = Some l /\ l <> 0
                          /\ to_meters l (CableInstance.length_unit saved) = Ok m)
  /\ CableInstance.pk saved = Some (default next (CableInstance.pk cleaned))
  /\ CableInstance._pk saved = CableInstance.pk saved.
Proof.
  intros Hclean Hsave.
  pose proof (Cable_clean_cases _ _ _ Hclean) as Hunit.
  unfold Cable_save in Hsave.
  destruct (CableInstance.length cleaned) as [l|] eqn:El; cbn [length_is_true] in Hsave.
  - assert (Hu : CableInstance.length_unit cleaned <> "").
    { destruct Hunit as [[Hn _]|(l' & _ & Hu)]; [discriminate Hn|exact Hu]. }
    rewrite (bool_decide_eq_false_2 _ Hu) in Hsave. cbn [negb] in Hsave.
    case_bool_decide as Hz; cbn [negb andb default bind] in Hsave.
    + injection Hsave as <-. cbn. subst l.
      split; [split; [intros _; now right|reflexivity]|].
      split; [intros m H; discriminate H|]. split; reflexivity.
    + unfold id in Hsave.
      destruct (to_meters l (CableInstance.length_unit cleaned)) as [m|e] eqn:Em;
        cbn [bind] in Hsave; [|discriminate Hsave]. injection Hsave as <-. cbn.
      split; [split; [discriminate|intros [H|H]; [discriminate|congruence]]|].
      split; [|split; reflexivity].
      intros m' H. injection H as <-. eauto.
  - cbn [andb bind] in Hsave. injection Hsave as <-. cbn.
    split; [split; [intros _; now left|reflexivity]|].
    split; [intros m H; discriminate H|]. split; reflexivity.
Qed.

Lemma Cable_save_abs_length_witness :
  exists saved,
    Cable_save SampleCable.scale 9 SampleCable.zero = Ok saved
    /\ CableInstance._abs_length saved = None
    /\ CableInstance.pk saved = Some 9.
Proof.
  eexists. split; [reflexivity|].
  destruct (Cable_save_abs_length Valid SampleCable.scale 9 SampleCable.zero
              SampleCable.zero _ eq_refl eq_refl) as (Habs & _ & Hk & _).
  split; [|exact Hk]. apply Habs. now right.
Defined.

(** X19.  A cable saved with length zero counts as a cable without
    length: with cable keys unique in their table, a path whose nodes
    include the saved row's key is never definitive for
    [get_total_length]. *)
Theorem zero_length_never_definitive
    (to_meters : Z -> string -> Result Z) (next : Z)
    (cable saved : CableInstance.t) (topo : Topology) (self : CablePath)
    (ids : list Z) :
  CableInstance.length cable = Some 0 ->
  Cable_save to_meters next cable = Ok saved ->
  In (Cable_row saved) (cable_objects topo) ->
  List.NoDup (map cable_pk (cable_objects topo)) ->
  get_cable_ids self = Ok ids ->
  In (cable_pk (Cable_row saved)) ids ->
  exists total, get_total_length topo self = Ok (total, false).
Proof.
  intros Hzero Hsave Hrow Hpks Hget Hid.
  assert (Habs : _abs_length (Cable_row saved) = None).
  { unfold Cable_save in Hsave. rewrite Hzero in Hsave. cbn in Hsave.
    injection Hsave as <-. reflexivity. }
  rewrite (get_total_length_Ok topo self ids Hget).
  destruct (total_length_of topo ids) as [total d] eqn:Et. exists total.
  destruct d; [exfalso|reflexivity].
  assert (Hd : snd (total_length_of topo ids) = true) by now rewrite Et.
  pose proof (definitive_sound topo ids Hpks Hd) as Hids.
  pose proof (proj1 (get_total_length_definitive topo ids Hids Hpks) Hd) as Hall.
  destruct (Hall _ Hid) as (c & Hc & Hk & Hl).
  assert (c = Cable_row saved) as ->.
  { clear - Hc Hrow Hk Hpks. induction (cable_objects topo) as [|x xs IH]; [destruct Hc|].
    simpl in Hpks. apply List.NoDup_cons_iff in Hpks as [Hx Hxs].
    destruct Hc as [->|Hc], Hrow as [Hr|Hr]; try subst x; auto.
    - exfalso. apply Hx. rewrite Hk. now apply in_map.
    - exfalso. apply Hx. rewrite <- Hk. now apply in_map. }
  unfold has_length in Hl. now rewrite Habs in Hl.
Qed.

Lemma zero_length_never_definitive_witness :
  exists total,
    get_total_length
      {| termination_objects := []; cable_termination_objects := [];
         cable_objects := [Sample.c1; Sample.cable 9 STATUS_CONNECTED None];
         is_ := fun _ _ => false |}
      {| cp_pk := Some 1;
         path := [[(InterfaceModel, 1)]; [(CableModel, 9)]; [(InterfaceModel, 2)]];
         is_active := true; is_complete := true; is_split := false;
         _nodes := Some [(InterfaceModel, 1); (CableModel, 9); (InterfaceModel, 2)];
         _path_objects := None |} = Ok (total, false).
Proof.
  destruct (Cable_save SampleCable.scale 9 SampleCable.zero) as [saved|] eqn:Es;
    [|discriminate Es].
  apply (zero_length_never_definitive SampleCable.scale 9 SampleCable.zero saved _ _ [9]);
    [reflexivity|exact Es| | |reflexivity|]; injection Es as <-.
  - right. now left.
  - repeat constructor; [intros [H|[]]; discriminate H|intros []].
  - now left.
Defined.

(** ** The ends of a cable *)

Lemma traverse_termination (topo : Topology) (rows : list CableTermination) :
  forall remote,
    traverse (termination topo) rows = Ok remote ->
    map (fun term => get_object topo (termination_type term, termination_id term)) rows
    = map Some remote.
Proof.
  induction rows as [|ct rows IH]; simpl; intros remote H.
  - now injection H as <-.
  - unfold termination in H at 1.
    destruct (get_object topo _) as [t|] eqn:E; [|discriminate]. simpl in H.
    destruct (traverse (termination topo) rows) as [ts|]; [|discriminate].
    simpl in H. injection H as <-. simpl. now rewrite (IH ts).
Qed.

(** X20.  When the trace crosses a cable, the far end it records is one
    whole end of that cable as [get_a_terminations] or [get_b_terminations]
    lists it, with no termination missing: the A end when the terminations
    it came from sit on the B end, the B end otherwise. *)
Theorem far_end_is_cable_end (topo : Topology) (s s1 : Loop.State)
    (remote : list Termination) t0 rest (c : Cable) :
  cross_link topo s = Far s1 remote ->
  Loop.terminations s = t0 :: rest ->
  link t0 = Some (LinkCable c) ->
  exists local,
    In local (cable_termination_objects topo)
    /\ termination_type local = model_of t0
    /\ In (termination_id local) (map pk (t0 :: rest))
    /\ map Some remote
       = (if bool_decide (cable_end local = EndB)
          then get_a_terminations topo c
          else get_b_terminations topo c).
Proof.
  intros Hc Et El.
  apply cross_link_Far in Hc as (t0' & rest' & l & Et' & El' & Hr & _).
  rewrite Et in Et'. injection Et' as <- <-. rewrite El in El'. injection El' as <-.
  unfold remote_terminations_of in Hr.
  destruct (List.filter _ (cable_termination_objects topo)) as [|ct0 cts] eqn:Ef;
    [discriminate|].
  destruct (negb _); [discriminate|].
  assert (Hin : In ct0 (ct0 :: cts)) by now left.
  rewrite <- Ef in Hin. apply filter_In in Hin as [Hin Hp].
  apply andb_true_iff in Hp as [Hty Hid].
  apply bool_decide_eq_true in Hty. apply bool_decide_eq_true, list_elem_of_In in Hid.
  exists ct0. split; [exact Hin|]. split; [exact Hty|]. split; [exact Hid|].
  apply traverse_termination in Hr. rewrite <- Hr.
  unfold get_a_terminations, get_b_terminations, get_terminations, opposite_end.
  destruct (bool_decide (cable_end ct0 = EndB)); reflexivity.
Qed.

Lemma far_end_is_cable_end_witness :
  map Some [Sample.Loopback.r2]
  = get_b_terminations Sample.Loopback.topo Sample.c2.
Proof.
  destruct (far_end_is_cable_end Sample.Loopback.topo Sample.Loopback.pass1
              Sample.Loopback.pass2_crossed [Sample.Loopback.r2]
              Sample.Loopback.r1 [] Sample.c2
              ltac:(vm_compute; reflexivity) eq_refl eq_refl)
    as (local & Hin & Hty & Hid & ->).
  assert (cable_end local = EndA) as ->; [|reflexivity].
  repeat (destruct Hin as [<-|Hin]; [first [discriminate Hty | reflexivity
                                            | now destruct Hid as [Hid|[]]]|]).
  destruct Hin.
Defined.

(** ** Tags by content type *)

Lemma split_length (sep : Ascii.ascii) (s : string) :
  length (split sep s) = S (occurrences sep s).
Proof.
  induction s as [|c s IH]; [reflexivity|]. cbn [split occurrences].
  case_bool_decide; simpl.
  - now rewrite IH.
  - destruct (split sep s); simpl in *; lia.
Qed.

Lemma tagged_with_members (tables : TagTables) (queryset : list Tag)
    (content_types : list ContentType) (t : Tag) :
  t ∈ tagged_with tables queryset content_types <->
  t ∈ queryset
  /\ exists item ct,
       In item (tagged_item_objects tables) /\ In ct content_types
       /\ tagged_tag item = tag_pk t
       /\ tagged_content_type item = content_type_pk ct.
Proof.
  unfold tagged_with. rewrite elem_of_remove_dups, list_elem_of_In, in_flat_map.
  split.
  - intros (tag & Htag & Ht). apply in_map_iff in Ht as (item & <- & Hitem).
    apply filter_In in Hitem as [Hitem Hp]. apply andb_true_iff in Hp as [Hk Hc].
    apply bool_decide_eq_true in Hk.
    apply bool_decide_eq_true, list_elem_of_In, in_map_iff in Hc as (ct & Hct & Hin).
    split; [now apply list_elem_of_In|]. exists item, ct. auto.
  - intros (Hq & item & ct & Hitem & Hct & Hk & Hc). exists t.
    split; [now apply list_elem_of_In|].
    apply in_map_iff. exists item. split; [reflexivity|]. apply filter_In.
    split; [exact Hitem|]. apply andb_true_iff. split.
    + now apply bool_decide_eq_true.
    + apply bool_decide_eq_true, list_elem_of_In, in_map_iff. eauto.
Qed.

Lemma no_well_formed_value (lower : string -> string) (values : list string) :
  Forall (fun value => occurrences "."%char (lower value) <> 1%nat) values ->
  flat_map
    (fun value => match split "."%char (lower value) with
                  | [app_label_; model_] => [(app_label_, model_)]
                  | _ => []
                  end) values = [].
Proof.
  induction 1 as [|v vs Hv _ IH]; [reflexivity|]. simpl. rewrite IH, app_nil_r.
  pose proof (split_length "."%char (lower v)) as Hl.
  destruct (split "."%char (lower v)) as [|a [|b [|c l]]]; try reflexivity.
  simpl in Hl. lia.
Qed.

(** X21.  In [_content_type] a value is used only if, lowered, it has
    exactly one dot.  When no value has, the content-type filter stays
    empty and keeps every content type: the answer is not empty but every
    tag of the queryset attached to any object, the same as
    [_content_type_id] gives for the ids of all content types. *)
Theorem content_type_without_valid_value (lower : string -> string)
    (tables : TagTables) (queryset : list Tag) (values : list string) :
  Forall (fun value => occurrences "."%char (lower value) <> 1%nat) values ->
  _content_type lower tables queryset values
  = _content_type_id tables queryset
      (map content_type_pk (content_type_objects tables)).
Proof.
  intros H. unfold _content_type, _content_type_id.
  rewrite (no_well_formed_value lower values H). cbn [filter_Q]. f_equal.
  symmetry. apply forallb_filter_id, forallb_forall. intros ct Hct.
  apply bool_decide_eq_true, list_elem_of_In. now apply in_map.
Qed.

Lemma content_type_without_valid_value_witness :
  _content_type (fun s => s) SampleTags.tables
    [SampleTags.blue; SampleTags.red; SampleTags.unused] ["device"; "dcim.device.x"]
  = [SampleTags.blue; SampleTags.red].
Proof.
  rewrite (content_type_without_valid_value (fun s => s) SampleTags.tables
             [SampleTags.blue; SampleTags.red; SampleTags.unused]
             ["device"; "dcim.device.x"]).
  - vm_compute. reflexivity.
  - repeat constructor; vm_compute; lia.
Defined.

(** X22.  [_content_type] returns each tag at most once, and a tag is
    returned exactly when it is in the queryset and some tagged item of it
    has a content type that exists and, unless no value is usable, is named
    (app label, dot, model) by one of the lowered values. *)
Theorem content_type_members (lower : string -> string) (tables : TagTables)
    (queryset : list Tag) (values : list string) :
  NoDup (_content_type lower tables queryset values)
  /\ forall t,
       t ∈ _content_type lower tables queryset values <->
       t ∈ queryset
       /\ exists item ct,
            In item (tagged_item_objects tables)
            /\ In ct (content_type_objects tables)
            /\ tagged_tag item = tag_pk t
            /\ tagged_content_type item = content_type_pk ct
            /\ ((forall value, In value values ->
                               length (split "."%char (lower value)) <> 2%nat)
                \/ exists value,
                     In value values
                     /\ split "."%char (lower value) = [app_label ct; model ct]).
Proof.
  split; [apply NoDup_remove_dups|]. intros t. unfold _content_type.
  set (q := flat_map _ values).
  assert (Hq : forall a m,
             (a, m) ∈ q <-> exists value, In value values
                                          /\ split "."%char (lower value) = [a; m]).
  { intros a m. unfold q. rewrite list_elem_of_In, in_flat_map. split.
    - intros (v & Hv & Hin). exists v. split; [exact Hv|].
      destruct (split "."%char (lower v)) as [|x [|y [|z l]]]; simpl in Hin;
        try contradiction.
      destruct Hin as [Hin|[]]. now injection Hin as -> ->.
    - intros (v & Hv & Hs). exists v. split; [exact Hv|]. rewrite Hs. now left. }
  assert (Hempty : q = [] <->
                   forall value, In value values ->
                                 length (split "."%char (lower value)) <> 2%nat).
  { split.
    - intros He v Hv Hl.
      destruct (split "."%char (lower v)) as [|a [|m [|z l]]] eqn:Es; try discriminate.
      assert (Hin : (a, m) ∈ q) by (apply Hq; eauto). rewrite He in Hin.
      now apply not_elem_of_nil in Hin.
    - intros Hall. destruct q as [|[a m] q']; [reflexivity|exfalso].
      assert (Hin : (a, m) ∈ (a, m) :: q') by apply list_elem_of_here.
      apply Hq in Hin as (v & Hv & Hs).
      apply (Hall v Hv). now rewrite Hs. }
  rewrite tagged_with_members. split.
  - intros (Ht & item & ct & Hitem & Hct & Hk & Hc). split; [exact Ht|].
    exists item, ct. destruct q as [|p q'].
    + cbn [filter_Q] in Hct. repeat split; try assumption. left. now apply Hempty.
    + cbn [filter_Q] in Hct. apply filter_In in Hct as [Hct Hm].
      apply bool_decide_eq_true in Hm. apply Hq in Hm.
      repeat split; try assumption. now right.
  - intros (Ht & item & ct & Hitem & Hct & Hk & Hc & Hv). split; [exact Ht|].
    exists item, ct. repeat split; try assumption.
    destruct Hv as [Hnone|Hsome].
    + apply Hempty in Hnone. now rewrite Hnone.
    + apply Hq in Hsome. destruct q as [|p q'].
      * now apply not_elem_of_nil in Hsome.
      * cbn [filter_Q]. apply filter_In. split; [exact Hct|].
        now apply bool_decide_eq_true.
Qed.

(** X23.  [_content_type_id] returns each tag at most once, and a tag is
    returned exactly when it is in the queryset and some tagged item of it
    has a content type that exists and whose id is among the values; with no
    value it returns nothing. *)
Theorem content_type_id_members (tables : TagTables) (queryset : list Tag)
    (values : list Z) :
  NoDup (_content_type_id tables queryset values)
  /\ (forall t,
        t ∈ _content_type_id tables queryset values <->
        t ∈ queryset
        /\ exists item ct,
             In item (tagged_item_objects tables)
             /\ In ct (content_type_objects tables)
             /\ tagged_tag item = tag_pk t
             /\ tagged_content_type item = content_type_pk ct
             /\ In (content_type_pk ct) values)
  /\ (values = [] -> _content_type_id tables queryset values = []).
Proof.
  assert (Hmem : forall t,
             t ∈ _content_type_id tables queryset values <->
             t ∈ queryset
             /\ exists item ct,
                  In item (tagged_item_objects tables)
                  /\ In ct (content_type_objects tables)
                  /\ tagged_tag item = tag_pk t
                  /\ tagged_content_type item = content_type_pk ct
                  /\ In (content_type_pk ct) values).
  { intros t. unfold _content_type_id. rewrite tagged_with_members. split.
    - intros (Ht & item & ct & Hitem & Hct & Hk & Hc). split; [exact Ht|].
      apply filter_In in Hct as [Hct Hv].
      apply bool_decide_eq_true, list_elem_of_In in Hv. eauto 10.
    - intros (Ht & item & ct & Hitem & Hct & Hk & Hc & Hv). split; [exact Ht|].
      exists item, ct. repeat split; try assumption. apply filter_In.
      split; [exact Hct|]. now apply bool_decide_eq_true, list_elem_of_In. }
  split; [apply NoDup_remove_dups|]. split; [exact Hmem|].
  intros Hv. destruct (_content_type_id tables queryset values) as [|t l] eqn:E;
    [reflexivity|exfalso].
  assert (Hin : t ∈ t :: l) by apply list_elem_of_here.
  apply Hmem in Hin as (_ & item & ct & _ & _ & _ & _ & Hin).
  rewrite Hv in Hin. destruct Hin.
Qed.

(** ** Rows with and without local context data *)

(** X24.  [_local_context_data] with true returns the rows that have
    local context data and with false those that have none; the two
    answers keep the order of the queryset and together hold each of its
    rows once. *)
Theorem local_context_data_partition {A D} (data : A -> option D) (queryset : list A) :
  (forall row, In row (_local_context_data data queryset true) <->
               In row queryset /\ data row <> None)
  /\ (forall row, In row (_local_context_data data queryset false) <->
                  In row queryset /\ data row = None)
  /\ (length (_local_context_data data queryset true)
      + length (_local_context_data data queryset false) = length queryset)%nat.
Proof.
  unfold _local_context_data. split; [|split].
  - intros row. rewrite filter_In. destruct (data row); simpl; intuition congruence.
  - intros row. rewrite filter_In. destruct (data row); simpl; intuition congruence.
  - induction queryset as [|row rows IH]; [reflexivity|].
    simpl. destruct (data row); simpl; lia.
Qed.

Lemma content_type_members_witness :
  SampleTags.red ∈ _content_type (fun s => s) SampleTags.tables
                     [SampleTags.blue; SampleTags.red; SampleTags.unused]
                     ["dcim.device"].
Proof.
  apply (proj2 (content_type_members (fun s => s) SampleTags.tables
                  [SampleTags.blue; SampleTags.red; SampleTags.unused]
                  ["dcim.device"])).
  split; [apply list_elem_of_In; right; now left|].
  exists {| tagged_tag := 1; tagged_content_type := 1 |},
         {| content_type_pk := 1; app_label := "dcim"; model := "device" |}.
  repeat split; try (now left).
  right. exists "dcim.device". split; [now left|reflexivity].
Defined.

Lemma content_type_id_members_witness :
  _content_type_id SampleTags.tables
    [SampleTags.blue; SampleTags.red; SampleTags.unused] [] = [].
Proof.
  exact (proj2 (proj2 (content_type_id_members SampleTags.tables
                         [SampleTags.blue; SampleTags.red; SampleTags.unused] []))
           eq_refl).
Defined.

Lemma local_context_data_partition_witness :
  In 2 (_local_context_data (fun x : Z => if bool_decide (0 < x) then Some x else None)
          [1; 0; 2] true).
Proof.
  apply (proj1 (local_context_data_partition
                  (fun x : Z => if bool_decide (0 < x) then Some x else None)
                  [1; 0; 2])).
  split; [right; right; now left|discriminate].
Defined.

(** ** What retrace leaves alone *)

(** X25.  [retrace] of a stored path, whether it rewrites the row or
    deletes it, leaves the topology, the key counter and the rows of all
    other paths as they were. *)
Theorem retrace_frame (fuel : nat) (db db' : Database) (self self' : CablePath) (k : Z) :
  cp_pk self = Some k ->
  retrace fuel db self = Some (Ok (db', self')) ->
  topology db' = topology db
  /\ next_pk db' = next_pk db
  /\ forall k', k' <> k -> cable_paths db' !! k' = cable_paths db !! k'.
Proof.
  intros Hk H. unfold retrace in H.
  destruct (origins (topology db) self) as [os|]; [|discriminate].
  destruct (from_origin fuel (topology db) os) as [[[new|]|]|]; try discriminate.
  - injection H as H. unfold save in H.
    cbn [cp_pk path is_active is_complete is_split _nodes _path_objects] in H.
    rewrite Hk in H. cbn [default] in H.
    destruct (origins (topology db) _) as [[|o0 os']|]; try discriminate H.
    cbn [bind] in H. destruct (negb _); [discriminate H|].
    injection H as <- <-. cbn [topology next_pk cable_paths].
    split; [reflexivity|]. split; [reflexivity|].
    intros k' Hne. apply lookup_insert_ne. congruence.
  - injection H as H. unfold delete in H. rewrite Hk in H. injection H as <- <-.
    cbn [topology next_pk cable_paths].
    split; [reflexivity|]. split; [reflexivity|].
    intros k' Hne. apply lookup_delete_ne. congruence.
Qed.

Lemma retrace_frame_witness :
  exists db' self',
    retrace 5 Sample.Open.db Sample.Open.unlinked = Some (Ok (db', self'))
    /\ topology db' = Sample.Open.topo
    /\ cable_paths db' !! 7 = cable_paths Sample.Open.db !! 7.
Proof.
  destruct (retrace 5 Sample.Open.db Sample.Open.unlinked)
    as [[[db' self']|]|] eqn:E; try (vm_compute in E; discriminate E).
  exists db', self'. split; [reflexivity|].
  destruct (retrace_frame 5 Sample.Open.db db' Sample.Open.unlinked self' 4 eq_refl E)
    as (Ht & _ & Hrows).
  split; [exact Ht|]. now apply Hrows.
Defined.
